(** * DER-VET sizing: a shallow embedding of the sizing and scenario code

    Embedded source files:
    - [MicrogridDER/ESSSizing.py]       (module [ESSSizing])
    - [TechnologiesDER/DieselSizing.py] (module [DieselSizing])
    - [MicrogridScenario.py]            (module [MicrogridScenario])
    - [dervet/MicrogridResult.py]       (module [MicrogridResult])

    Python numbers are modelled by exact rationals ([Qc]).  The [/] of two
    Python numbers raises [ZeroDivisionError] on a zero divisor; when an
    operand is the NumPy array that a solved CVXPY object gives as its
    [.value], the division is NumPy's and leaves an infinity or
    not-a-number instead.  Python objects with identity (CVXPY variables)
    carry the identifier that CVXPY hands out when the object is created. *)

From Stdlib Require Import Ascii QArith Qcanon Qround.
From stdpp Require Import numbers strings pretty list sorting gmap.

Local Open Scope string_scope.
Local Open Scope Qc_scope.

(** ** Python results: a returned value or an exception that escapes *)

Inductive exn : Type :=
  | AttributeError
  | ZeroDivisionError
  | TypeError.

Inductive outcome (A : Type) : Type :=
  | Return (a : A)
  | Raise (e : exn).
Arguments Return {A} a.
Arguments Raise {A} e.

(** ** The part of CVXPY the sizing code uses *)

Module Cvx.

(** [cvx.Variable(name=..., integer=...)]: every call builds a new object;
    [var_id] is the identifier of that object. *)
Record variable : Type := mkVariable {
  var_id : nat;
  var_name : string;
  var_integer : bool
}.

(** Affine expressions built by the operators the source applies. *)
Inductive expr : Type :=
  | Var (v : variable)
  | Const (q : Qc)
  | Neg (e : expr)
  | Scale (c : Qc) (e : expr)
  | Plus (e1 e2 : expr).

(** [cvx.NonPos(e)]: the constraint [e <= 0]. *)
Inductive constraint : Type :=
  | NonPos (e : expr).

(** What a Python attribute of the sizing classes may hold: a plain number,
    a CVXPY object, or [None]. *)
Inductive pyobj : Type :=
  | Num (q : Qc)
  | Obj (e : expr)
  | PyNone.

(** The values the solver left in the variables ([None] before a solve). *)
Definition solution : Type := nat -> option Qc.

Fixpoint expr_value (sol : solution) (e : expr) : option Qc :=
  match e with
  | Var v => sol (var_id v)
  | Const q => Some q
  | Neg e => Qcopp <$> expr_value sol e
  | Scale c e => Qcmult c <$> expr_value sol e
  | Plus e1 e2 =>
      match expr_value sol e1, expr_value sol e2 with
      | Some a, Some b => Some (a + b)
      | _, _ => None
      end
  end.

Definition of_option (o : option Qc) : pyobj :=
  match o with
  | Some q => Num q
  | None => PyNone
  end.

(** [o.value]: a CVXPY object answers with its value, anything else has no
    such attribute. *)
Definition value (sol : solution) (o : pyobj) : outcome pyobj :=
  match o with
  | Obj e => Return (of_option (expr_value sol e))
  | Num _ | PyNone => Raise AttributeError
  end.

(** The idiom [try: x = o.value / except AttributeError: x = o]. *)
Definition value_or_self (sol : solution) (o : pyobj) : pyobj :=
  match value sol o with
  | Return v => v
  | Raise AttributeError => o
  | Raise _ => o
  end.

(** Python truth of an attribute, as tested by [not self.x]. *)
Definition truthy (o : pyobj) : bool :=
  match o with
  | Num q => negb (bool_decide (q = 0))
  | Obj _ => true
  | PyNone => false
  end.

(** Whether [o] has a [.value]: the idiom above then gives the NumPy
    array CVXPY keeps for the object ([None] before a solve) and not [o]
    itself. *)
Definition has_value (o : pyobj) : bool :=
  match o with
  | Obj _ => true
  | Num _ | PyNone => false
  end.

(** What a division leaves: a number, or one of the two kinds of value
    NumPy's division leaves for a zero divisor. *)
Inductive quotient : Type :=
  | Quot (q : Qc)
  | Inf (negative : bool)
  | NaN.

(** [a / b].  [array] tells whether one of the operands is a NumPy array.
    Between two Python numbers a zero divisor raises [ZeroDivisionError].
    With an array operand the division is NumPy's: a zero divisor gives an
    infinity with the sign of the dividend, or not-a-number for [0 / 0],
    and NumPy issues a [RuntimeWarning] through Python's [warnings] module
    (which is neither of the two loggers); nothing is raised.  The rational
    zero stands for [+0.0].  [None] as an operand is a [TypeError] either
    way. *)
Definition div (array : bool) (a b : pyobj) : outcome quotient :=
  match a, b with
  | Num x, Num y =>
      if bool_decide (y = 0) then
        if array then
          Return (if bool_decide (x = 0) then NaN
                  else Inf (bool_decide (x < 0)))
        else Raise ZeroDivisionError
      else Return (Quot (x / y))
  | _, _ => Raise TypeError
  end.

(** [x > bound] for the result of a division. *)
Definition exceeds (bound : Qc) (x : quotient) : bool :=
  match x with
  | Quot q => bool_decide (bound < q)
  | Inf negative => negb negative
  | NaN => false
  end.

End Cvx.

(** ** The process-wide state the constructors touch: CVXPY's identifier
    counter and the two loggers *)

Record world : Type := mkWorld {
  next_id : nat;
  error_log : list string;
  user_log : list string
}.

Definition M (A : Type) : Type := world -> A * world.

Global Instance M_ret : MRet M := fun A (a : A) w => (a, w).

Global Instance M_bind : MBind M :=
  fun A B (k : A -> M B) (m : M A) w => let (a, w') := m w in k a w'.

(** [cvx.Variable(name=name, integer=integer)] *)
Definition new_Variable (name : string) (integer : bool) : M Cvx.variable :=
  fun w =>
    (Cvx.mkVariable (next_id w) name integer,
     mkWorld (S (next_id w)) (error_log w) (user_log w)).

(** [e_logger.error(msg)] and [u_logger.error(msg)] *)
Definition e_logger_error (msg : string) : M unit :=
  fun w => (tt, mkWorld (next_id w) (error_log w ++ [msg]) (user_log w)).

Definition u_logger_error (msg : string) : M unit :=
  fun w => (tt, mkWorld (next_id w) (error_log w) (user_log w ++ [msg])).

(** ** MicrogridDER/ESSSizing.py *)

Module ESSSizing.
Import Cvx.

(** The attributes of an [ESSSizing] instance that the file reads or
    writes.  [EnergyStorage.__init__], [DERExtension.__init__] and
    [Sizing.__init__] fill them from the input parameters before the body
    of [ESSSizing.__init__] runs. *)
Record t : Type := mk {
  name : string;
  tag : string;
  ene_max_rated : pyobj;
  ch_max_rated : pyobj;
  dis_max_rated : pyobj;
  llsoc : Qc;
  ulsoc : Qc;
  effective_soe_min : pyobj;
  effective_soe_max : pyobj;
  incl_energy_limits : bool;
  limit_energy_max : option (list Qc);
  incl_charge_limits : bool;
  limit_charge_max : option (list Qc);
  incl_discharge_limits : bool;
  limit_discharge_max : option (list Qc);
  size_constraints : list constraint;
  rte : Qc;
  capital_cost_function : list Qc
}.

Definition set_ene_max_rated (v : pyobj) (s : t) : t :=
  mk (name s) (tag s) v (ch_max_rated s) (dis_max_rated s) (llsoc s) (ulsoc s)
     (effective_soe_min s) (effective_soe_max s)
     (incl_energy_limits s) (limit_energy_max s)
     (incl_charge_limits s) (limit_charge_max s)
     (incl_discharge_limits s) (limit_discharge_max s)
     (size_constraints s) (rte s) (capital_cost_function s).

Definition set_ch_max_rated (v : pyobj) (s : t) : t :=
  mk (name s) (tag s) (ene_max_rated s) v (dis_max_rated s) (llsoc s) (ulsoc s)
     (effective_soe_min s) (effective_soe_max s)
     (incl_energy_limits s) (limit_energy_max s)
     (incl_charge_limits s) (limit_charge_max s)
     (incl_discharge_limits s) (limit_discharge_max s)
     (size_constraints s) (rte s) (capital_cost_function s).

Definition set_dis_max_rated (v : pyobj) (s : t) : t :=
  mk (name s) (tag s) (ene_max_rated s) (ch_max_rated s) v (llsoc s) (ulsoc s)
     (effective_soe_min s) (effective_soe_max s)
     (incl_energy_limits s) (limit_energy_max s)
     (incl_charge_limits s) (limit_charge_max s)
     (incl_discharge_limits s) (limit_discharge_max s)
     (size_constraints s) (rte s) (capital_cost_function s).

Definition set_effective_soe_min (v : pyobj) (s : t) : t :=
  mk (name s) (tag s) (ene_max_rated s) (ch_max_rated s) (dis_max_rated s)
     (llsoc s) (ulsoc s) v (effective_soe_max s)
     (incl_energy_limits s) (limit_energy_max s)
     (incl_charge_limits s) (limit_charge_max s)
     (incl_discharge_limits s) (limit_discharge_max s)
     (size_constraints s) (rte s) (capital_cost_function s).

Definition set_effective_soe_max (v : pyobj) (s : t) : t :=
  mk (name s) (tag s) (ene_max_rated s) (ch_max_rated s) (dis_max_rated s)
     (llsoc s) (ulsoc s) (effective_soe_min s) v
     (incl_energy_limits s) (limit_energy_max s)
     (incl_charge_limits s) (limit_charge_max s)
     (incl_discharge_limits s) (limit_discharge_max s)
     (size_constraints s) (rte s) (capital_cost_function s).

Definition set_limit_energy_max (v : option (list Qc)) (s : t) : t :=
  mk (name s) (tag s) (ene_max_rated s) (ch_max_rated s) (dis_max_rated s)
     (llsoc s) (ulsoc s) (effective_soe_min s) (effective_soe_max s)
     (incl_energy_limits s) v
     (incl_charge_limits s) (limit_charge_max s)
     (incl_discharge_limits s) (limit_discharge_max s)
     (size_constraints s) (rte s) (capital_cost_function s).

Definition set_limit_charge_max (v : option (list Qc)) (s : t) : t :=
  mk (name s) (tag s) (ene_max_rated s) (ch_max_rated s) (dis_max_rated s)
     (llsoc s) (ulsoc s) (effective_soe_min s) (effective_soe_max s)
     (incl_energy_limits s) (limit_energy_max s)
     (incl_charge_limits s) v
     (incl_discharge_limits s) (limit_discharge_max s)
     (size_constraints s) (rte s) (capital_cost_function s).

Definition set_limit_discharge_max (v : option (list Qc)) (s : t) : t :=
  mk (name s) (tag s) (ene_max_rated s) (ch_max_rated s) (dis_max_rated s)
     (llsoc s) (ulsoc s) (effective_soe_min s) (effective_soe_max s)
     (incl_energy_limits s) (limit_energy_max s)
     (incl_charge_limits s) (limit_charge_max s)
     (incl_discharge_limits s) v
     (size_constraints s) (rte s) (capital_cost_function s).

Definition set_size_constraints (v : list constraint) (s : t) : t :=
  mk (name s) (tag s) (ene_max_rated s) (ch_max_rated s) (dis_max_rated s)
     (llsoc s) (ulsoc s) (effective_soe_min s) (effective_soe_max s)
     (incl_energy_limits s) (limit_energy_max s)
     (incl_charge_limits s) (limit_charge_max s)
     (incl_discharge_limits s) (limit_discharge_max s)
     v (rte s) (capital_cost_function s).

(** [self.size_constraints += [cvx.NonPos(-v)]] *)
Definition add_nonneg (v : variable) (s : t) : t :=
  set_size_constraints (size_constraints s ++ [NonPos (Neg (Var v))]) s.

Definition ignoring (what : string) (s : t) (why : string) : string :=
  "Ignoring " ++ what ++ " max time series because " ++ tag s ++ "-"
    ++ name s ++ " sizing for " ++ why ++ " capacity".

(** [llsoc * self.ene_max_rated] where the right operand is the variable
    just created. *)
Definition scaled (c : Qc) (v : variable) : pyobj := Obj (Scale c (Var v)).

(** Lines 40-49: the energy rating. *)
Definition init_energy (s : t) : M t :=
  if negb (truthy (ene_max_rated s)) then
     v ← new_Variable "Energy_cap" true;
     let s := set_ene_max_rated (Obj (Var v)) s in
     let s := add_nonneg v s in
     let s := set_effective_soe_min (scaled (llsoc s) v) s in
     let s := set_effective_soe_max (scaled (ulsoc s) v) s in
     if incl_energy_limits s && bool_decide (limit_energy_max s ≠ None) then
       e_logger_error (ignoring "energy" s "energy");;
       mret (set_limit_energy_max None s)
     else mret s
   else mret s.

Definition drop_charge_limit (s : t) : M t :=
  if incl_charge_limits s && bool_decide (limit_charge_max s ≠ None) then
     e_logger_error (ignoring "charge" s "power");;
     mret (set_limit_charge_max None s)
   else mret s.

Definition drop_discharge_limit (s : t) : M t :=
  if incl_discharge_limits s && bool_decide (limit_discharge_max s ≠ None) then
     e_logger_error (ignoring "discharge" s "power");;
     mret (set_limit_discharge_max None s)
   else mret s.

(** Lines 51-75: the power ratings. *)
Definition init_power (s : t) : M t :=
  if negb (truthy (ch_max_rated s)) && negb (truthy (dis_max_rated s)) then
     v ← new_Variable "power_cap" true;
     let s := set_ch_max_rated (Obj (Var v)) s in
     let s := add_nonneg v s in
     let s := set_dis_max_rated (ch_max_rated s) s in
     s ← drop_charge_limit s;
     drop_discharge_limit s
   else if negb (truthy (ch_max_rated s)) then
     v ← new_Variable "charge_power_cap" true;
     let s := set_ch_max_rated (Obj (Var v)) s in
     let s := add_nonneg v s in
     drop_charge_limit s
   else if negb (truthy (dis_max_rated s)) then
     v ← new_Variable "discharge_power_cap" true;
     let s := set_dis_max_rated (Obj (Var v)) s in
     let s := add_nonneg v s in
     drop_discharge_limit s
   else mret s.

(** [ESSSizing.__init__], after the three parent constructors have
    produced [s]. *)
Definition __init__ (s : t) : M t :=
  s ← init_energy s; init_power s.

(** The accessors take the instance and the solver's assignment and give
    back the result together with the instance they leave behind. *)
Definition method (A : Type) : Type := t -> solution -> A * t.

Definition discharge_capacity (solution : bool) : method pyobj :=
  fun self sol =>
    if negb solution then (dis_max_rated self, self)
    else (value_or_self sol (dis_max_rated self), self).

Definition charge_capacity (solution : bool) : method pyobj :=
  fun self sol =>
    if negb solution then (dis_max_rated self, self)
    else (value_or_self sol (ch_max_rated self), self).

Definition energy_capacity (solution : bool) : method pyobj :=
  fun self sol =>
    if negb solution then (ene_max_rated self, self)
    else (value_or_self sol (ene_max_rated self), self).

Definition operational_max_energy (solution : bool) : method pyobj :=
  fun self sol =>
    if negb solution then (effective_soe_max self, self)
    else (value_or_self sol (effective_soe_max self), self).

Definition operational_min_energy (solution : bool) : method pyobj :=
  fun self sol =>
    if negb solution then (effective_soe_min self, self)
    else (value_or_self sol (effective_soe_min self), self).

(** [calculate_duration]: the result, the instance afterwards, and what
    the call wrote to the loggers.  An operand of the division is a NumPy
    array exactly when its rating is a CVXPY object. *)
Definition calculate_duration (self : t) (sol : solution)
  : M (outcome quotient * t) :=
  let energy_rated := value_or_self sol (ene_max_rated self) in
  let array :=
    has_value (ene_max_rated self) || has_value (dis_max_rated self) in
  let (d, self) := discharge_capacity true self sol in
  mret (div array energy_rated d, self).

End ESSSizing.

(** ** TechnologiesDER/DieselSizing.py *)

Module DieselSizing.
Import Cvx.

(** What [storagevet.Diesel.__init__] leaves in the instance, as far as
    this file reads it. *)
Record diesel : Type := mkDiesel {
  diesel_name : string;
  diesel_capital_cost : Qc;
  diesel_ccost_kw : Qc;
  diesel_p_max : Qc
}.

Record t : Type := mk {
  name : string;
  capital_cost : Qc;  (* reported as 'Capital Cost ($)' *)
  ccost_kw : Qc;      (* reported as 'Capital Cost ($/kW)' *)
  p_max : Qc;
  n_min : Qc;
  n_max : Qc;
  n : pyobj;
  capex : pyobj
}.

(** [DieselSizing.__init__]: [params['n_min']], [params['n_max']], the
    unit-count variable and the capital cost expression. *)
Definition __init__ (base : diesel) (params_n_min params_n_max : Qc) : M t :=
  v ← new_Variable "generators" true;
  let capital_cost := diesel_capital_cost base in
  let p_max := diesel_p_max base in
  mret (mk (diesel_name base) capital_cost (diesel_ccost_kw base) p_max
           params_n_min params_n_max
           (Obj (Var v))
           (Obj (Plus (Scale capital_cost (Var v))
                      (Const (capital_cost * p_max))))).

(** The three constraints [build_master_constraints] adds for the unit
    count; [ice_gen] is the dispatch variable of the window. *)
Definition unit_constraints (self : t) (ice_gen n : variable)
  : list constraint :=
  [ NonPos (Plus (Const (n_min self)) (Neg (Var n)));
    NonPos (Plus (Var n) (Neg (Const (n_max self))));
    NonPos (Plus (Var ice_gen) (Neg (Scale (p_max self) (Var n)))) ].

(** An entry of the report: an attribute or resolved value, or the
    result of a division. *)
Inductive cell : Type :=
  | Value (o : pyobj)
  | Ratio (x : quotient).

(** [sizing_summary]: the rows of the report and their labels.  [n] is a
    NumPy array exactly when the unit count is a CVXPY object. *)
Definition sizing_summary (self : t) (sol : solution)
  : outcome (list (string * cell)) :=
  let array := has_value (n self) in
  let n := value_or_self sol (n self) in
  match div array (Num (p_max self)) n with
  | Raise e => Raise e
  | Return per_unit =>
      Return [ ("Power Capacity (kW)", Ratio per_unit);
               ("Capital Cost ($)", Value (Num (capital_cost self)));
               ("Capital Cost ($/kW)", Value (Num (ccost_kw self)));
               ("Quantity", Value n) ]
  end.

End DieselSizing.

(** ** MicrogridScenario.py *)

Module MicrogridScenario.

(** The classes of the other files, as the interfaces this file calls.
    [D] is a DER object, [V] a value stream object. *)
Class DERClass (D : Type) : Type := {
  technology_type : D -> string;
  apply_past_degredation : Z -> D -> D;
  calc_degradation : Z -> Z -> Z -> D -> D;
  der_save_variable_results : list Z -> D -> D;
  set_size : D -> D
}.

(** What [get_der_limits] returns. *)
Record der_limits : Type := mkLimits {
  generation : list Qc;
  total_pv_max : list Qc;
  ess_properties : gmap string Qc;
  demand_left : list Qc;
  reliability_check : list Qc
}.

(** [ess_properties['energy rating']]; the source reads the entry
    without a check, so the dictionary is taken to hold it. *)
Definition energy_rating (ess_properties : gmap string Qc) : Qc :=
  default 0 (ess_properties !! "energy rating").

Class ValueStreamClass (V D : Type) : Type := {
  vs_save_variable_results : list Z -> V -> V;
  (* the methods and attributes of [Reliability] *)
  critical_load : V -> list Qc;
  outage_duration : V -> Qc;
  soc_init : V -> Qc;
  get_der_limits : V -> list D -> option bool -> der_limits;
  reliability_sizing_for_analy_indices :
    V -> list bool -> list nat -> list D -> list D;
  simulate_outage :
    V -> list Qc -> list Qc -> Qc -> gmap string Qc -> Qc -> list Qc;
  reliability_min_soe_iterative : V -> list bool -> list D -> V * list D
}.

(** The inherited [Scenario] methods, [CostBenefitAnalysis.annuity_scalar]
    and NumPy's [argsort].  [O] is a row of objective values, [R] the
    system requirements, [P] an assembled optimization problem, [F] the
    finance inputs. *)
Class Collaborators (D V O R P F : Type) : Type := {
  check_system_requirements : list D -> gmap string V -> R;
  set_up_optimization :
    list bool -> R -> Qc -> bool -> list D -> gmap string V -> P;
  run_optimization :
    P -> Z -> list D -> gmap string V -> list O * list D * gmap string V;
  annuity_scalar : F -> Qc;
  argsort : list Qc -> list nat
}.

(** Calls that leave this file, in the order they are made.  The loop
    [for vs in self.service_agg.value_streams.values()] is one entry: it
    calls every value stream of the dictionary, in the order of the
    dictionary, which the map of the model does not record; the entry
    carries the keys of the value streams called. *)
Inductive call : Type :=
  | CallApplyPastDegredation (der : nat) (opt_period : Z)
  | CallSetUpOptimization (opt_period : Z) (annuity_scalar : Qc)
  | CallRunOptimization (opt_period : Z)
  | CallCalcDegradation (der : nat) (opt_period first last : Z)
  | CallConcatObjectiveValues (opt_period : Z)
  | CallDerSaveVariableResults (der : nat) (sub_index : list Z)
  | CallVsSaveVariableResults (vs : gset string) (sub_index : list Z)
  | CallReliabilitySizing (analysis_indices : list nat)
  | CallSetSize (der : nat)
  | CallReliabilityMinSoe.

Global Instance call_eq_dec : EqDecision call.
Proof. solve_decision. Defined.

Section Scenario.
Context {D V O R P F : Type}.
Context `{!DERClass D, !ValueStreamClass V D, !Collaborators D V O R P F}.

(** [self.poi] *)
Record poi : Type := mkPoi {
  is_sizing_optimization : bool;
  is_dcp_error : bool -> bool;
  der_list : list D
}.

(** [self.service_agg] *)
Record service_agg : Type := mkAgg {
  is_whole_sale_market : bool;
  post_facto_reliability_only : bool;
  is_deferral_only : bool;
  value_streams : gmap string V
}.

(** The scenario.  [optimization_levels] pairs every row label of the
    time series with its [predictive] window; [calls] is the history of
    outgoing calls. *)
Record t : Type := mk {
  the_poi : poi;
  the_service_agg : service_agg;
  incl_binary : bool;
  finance_inputs : F;
  optimization_levels : list (Z * Z);
  objective_values : list O;
  calls : list call;
  logs : world
}.

Definition set_der_list (l : list D) (p : poi) : poi :=
  mkPoi (is_sizing_optimization p) (is_dcp_error p) l.

Definition set_value_streams (m : gmap string V) (a : service_agg)
  : service_agg :=
  mkAgg (is_whole_sale_market a) (post_facto_reliability_only a)
        (is_deferral_only a) m.

Definition with_fleet (l : list D) (m : gmap string V) (s : t) : t :=
  mk (set_der_list l (the_poi s)) (set_value_streams m (the_service_agg s))
     (incl_binary s) (finance_inputs s) (optimization_levels s)
     (objective_values s) (calls s) (logs s).

Definition with_objective_values (o : list O) (s : t) : t :=
  mk (the_poi s) (the_service_agg s) (incl_binary s) (finance_inputs s)
     (optimization_levels s) o (calls s) (logs s).

Definition called (c : list call) (s : t) : t :=
  mk (the_poi s) (the_service_agg s) (incl_binary s) (finance_inputs s)
     (optimization_levels s) (objective_values s) (calls s ++ c) (logs s).

Definition logged (f : M unit) (s : t) : t :=
  mk (the_poi s) (the_service_agg s) (incl_binary s) (finance_inputs s)
     (optimization_levels s) (objective_values s) (calls s)
     (snd (f (logs s))).

Definition u_logger_info (msg : string) : M unit := u_logger_error msg.

(** [Series.unique()]: the distinct values, in order of first
    appearance. *)
Fixpoint unique_from (seen : list Z) (l : list Z) : list Z :=
  match l with
  | [] => []
  | x :: l =>
      if bool_decide (x ∈ seen) then unique_from seen l
      else x :: unique_from (x :: seen) l
  end.

Definition unique (l : list Z) : list Z := unique_from [] l.

Definition predictive (s : t) : list Z := (optimization_levels s).*2.

(** [mask = self.optimization_levels.predictive == opt_period] *)
Definition period_mask (s : t) (opt_period : Z) : list bool :=
  (fun p => bool_decide (p = opt_period)) <$> predictive s.

(** [self.optimization_levels.loc[mask].index] *)
Definition sub_index_of (s : t) (opt_period : Z) : list Z :=
  (filter (fun r => r.2 = opt_period) (optimization_levels s)).*1.

Definition is_ess (der : D) : bool :=
  bool_decide (technology_type der = "Energy Storage System").

(** The positions of the storage DERs in a fleet. *)
Definition ess_positions (l : list D) : list nat :=
  (filter (fun r => is_ess r.2 = true) (imap pair l)).*1.

(** Lines 136-138. *)
Definition apply_degradation (opt_period : Z) (s : t) : t :=
  let l := der_list (the_poi s) in
  let l' := (fun der => if is_ess der
                        then apply_past_degredation opt_period der
                        else der) <$> l in
  called ((fun i => CallApplyPastDegredation i opt_period)
            <$> ess_positions l)
    (with_fleet l' (value_streams (the_service_agg s)) s).

(** Lines 144-147; the result is the window's objective values. *)
Definition solve_window (opt_period : Z) (system_requirements : R)
    (alpha : Qc) (s : t) : list O * t :=
  let mask := period_mask s opt_period in
  let l := der_list (the_poi s) in
  let m := value_streams (the_service_agg s) in
  let problem :=
    set_up_optimization mask system_requirements alpha
      (post_facto_reliability_only (the_service_agg s)) l m in
  let '(objective_values, l', m') :=
    run_optimization problem opt_period l m in
  (objective_values,
   called [CallSetUpOptimization opt_period alpha;
           CallRunOptimization opt_period]
     (with_fleet l' m' s)).

(** Lines 150-153. *)
Definition record_degradation (opt_period : Z) (sub_index : list Z)
    (s : t) : t :=
  let l := der_list (the_poi s) in
  let first := default 0%Z (head sub_index) in
  let final := default 0%Z (last sub_index) in
  let l' := (fun der => if is_ess der
                        then calc_degradation opt_period first final der
                        else der) <$> l in
  called ((fun i => CallCalcDegradation i opt_period first final)
            <$> ess_positions l)
    (with_fleet l' (value_streams (the_service_agg s)) s).

(** Line 156. *)
Definition concat_objective_values (opt_period : Z) (o : list O) (s : t)
  : t :=
  called [CallConcatObjectiveValues opt_period]
    (with_objective_values (objective_values s ++ o) s).

(** Lines 159-162. *)
Definition save_results (sub_index : list Z) (s : t) : t :=
  let l := der_list (the_poi s) in
  let m := value_streams (the_service_agg s) in
  called (((fun i => CallDerSaveVariableResults i sub_index)
             <$> seq 0 (length l))
          ++ [CallVsSaveVariableResults (dom m) sub_index])
    (with_fleet (der_save_variable_results sub_index <$> l)
                (vs_save_variable_results sub_index <$> m) s).

(** The body of the [for opt_period in ...] loop; the progress line
    printed when [verbose] is set is left out. *)
Definition optimize_period (system_requirements : R) (alpha : Qc)
    (s : t) (opt_period : Z) : t :=
  let s := apply_degradation opt_period s in
  let (objective_values, s) :=
    solve_window opt_period system_requirements alpha s in
  let sub_index := sub_index_of s opt_period in
  let s := record_degradation opt_period sub_index s in
  let s := concat_objective_values opt_period objective_values s in
  save_results sub_index s.

Definition optimization_loop (system_requirements : R) (alpha : Qc)
    (s : t) : t :=
  foldl (optimize_period system_requirements alpha) s
        (unique (predictive s)).

(** Lines 122-163: what follows the sizing checks. *)
Definition optimize_windows (alpha : Qc) (s : t) : bool * t :=
  if is_deferral_only (the_service_agg s)
     || post_facto_reliability_only (the_service_agg s) then
    (true, logged (u_logger_info
       "Only active Value Stream is Deferral or post facto only, so not optimizations will run...") s)
  else
    let system_requirements :=
      check_system_requirements (der_list (the_poi s))
        (value_streams (the_service_agg s)) in
    let s := logged (u_logger_info "Starting optimization loop") s in
    (true, optimization_loop system_requirements alpha s).

(** [optimize_problem_loop]: the returned flag and the scenario
    afterwards. *)
Definition optimize_problem_loop (s : t) : bool * t :=
  if is_sizing_optimization (the_poi s) then
    if is_whole_sale_market (the_service_agg s) then
      (false, logged (e_logger_error
         "Params Error: trying to size the power of the battery to maximize profits in wholesale markets") s)
    else if post_facto_reliability_only (the_service_agg s) then
      (false, logged (e_logger_error
         "Params Error: trying to size and preform post facto calculations only") s)
    else if is_dcp_error (the_poi s) (incl_binary s) then
      (false, logged (e_logger_error
         "Params Error: trying to size power and use binary formulation results in nonlinear models") s)
    else optimize_windows (annuity_scalar (finance_inputs s)) s
  else optimize_windows 1 s.

(** *** [Reliability_based_sizing_module] *)

(** [np.rint]: the nearest integer, halves to the even neighbour. *)
Definition rint (q : Qc) : Z :=
  let f := Qfloor q in
  let r := q - Qc_of_Z f in
  if bool_decide (r < 1 / 2) then f
  else if bool_decide (1 / 2 < r) then (f + 1)%Z
  else if Z.even f then f else (f + 1)%Z.

(** [np.around(q, decimals=5)], on exact rationals.  NumPy computes
    [rint(q * 1e5) / 1e5] in binary floating point, whose result can differ
    from this one in the last decimal when [q * 1e5] lies within a rounding
    error of a half. *)
Definition around5 (q : Qc) : Qc :=
  Qc_of_Z (rint (q * Qc_of_Z 100000)) / Qc_of_Z 100000.

(** Line 177: [np.around(critical_load - generation - total_pv_max, 5)],
    element by element. *)
Definition max_load_demand_unserved (critical_load generation
    total_pv_max : list Qc) : list Qc :=
  around5 <$> zip_with Qcminus (zip_with Qcminus critical_load generation)
                               total_pv_max.

Definition top_n_outages : nat := 10.

(** Lines 180-183: [np.argsort(-1 * unserved)[:top_n_outages]] *)
Definition initial_analysis_indices (unserved : list Qc) : list nat :=
  let indices := argsort (Qcmult (- 1) <$> unserved) in
  take top_n_outages indices.

(** Lines 199-210, the inner [while]: [steps] counts the start indices
    still to be visited, the result is [First_failure_ind]. *)
Fixpoint first_failure (reliability_mod : V) (lim : der_limits)
    (soc : list Qc) (steps outage_init : nat) : Z :=
  match steps with
  | 0 => (-1)%Z
  | S steps =>
      let soc_profile :=
        simulate_outage reliability_mod
          (drop outage_init (reliability_check lim))
          (drop outage_init (demand_left lim))
          (outage_duration reliability_mod) (ess_properties lim)
          (default 0 (soc !! outage_init)) in
      let longest_outage := length soc_profile in
      if bool_decide (Qc_of_Z (Z.of_nat longest_outage)
                      < outage_duration reliability_mod) then
        if bool_decide (longest_outage
                        < length (critical_load reliability_mod)
                          - outage_init)%nat then
          Z.of_nat outage_init
        else
          first_failure reliability_mod lim soc steps (S outage_init)
      else
        first_failure reliability_mod lim soc steps (S outage_init)
  end.

(** Lines 196-210: the verification sweep over the horizon for a sized
    fleet. *)
Definition verification_sweep (reliability_mod : V) (der_list : list D)
  : Z :=
  let lim := get_der_limits reliability_mod der_list None in
  let n := length (critical_load reliability_mod) in
  let soc :=
    replicate n (soc_init reliability_mod
                 * energy_rating (ess_properties lim)) in
  first_failure reliability_mod lim soc n 0.

(** Lines 193-216, the outer [while IsReliable == 'No'].  The source
    loop has no bound; [fuel] bounds the number of rounds and [None]
    means the bound was reached.  The result is the candidate set, the
    sized fleet and the sizing calls made. *)
Fixpoint sizing_rounds (fuel : nat) (reliability_mod : V)
    (mask : list bool) (analysis_indices : list nat) (der_list : list D)
  : option (list nat * list D * list call) :=
  match fuel with
  | 0 => None
  | S fuel =>
      let der_list :=
        reliability_sizing_for_analy_indices reliability_mod mask
          analysis_indices der_list in
      let First_failure_ind :=
        verification_sweep reliability_mod der_list in
      if bool_decide (First_failure_ind > 0)%Z then
        '(a, l, c) ← sizing_rounds fuel reliability_mod mask
                        (analysis_indices ++ [Z.to_nat First_failure_ind])
                        der_list;
        Some (a, l, CallReliabilitySizing analysis_indices :: c)
      else
        Some (analysis_indices, der_list,
              [CallReliabilitySizing analysis_indices])
  end.

(** [Reliability_based_sizing_module].  The first two branches are the
    [return] of line 168; [print(end-start)] writes a wall-clock
    difference to standard output and is left out. *)
Definition Reliability_based_sizing_module (fuel : nat) (s : t)
  : option t :=
  match value_streams (the_service_agg s) !! "Reliability" with
  | None => Some s
  | Some reliability_mod =>
      if negb (is_sizing_optimization (the_poi s)) then Some s
      else
        let der_list := der_list (the_poi s) in   (* copy.deepcopy *)
        let lim := get_der_limits reliability_mod der_list (Some true) in
        let unserved :=
          max_load_demand_unserved (critical_load reliability_mod)
            (generation lim) (total_pv_max lim) in
        let analysis_indices := initial_analysis_indices unserved in
        let mask := replicate (length (optimization_levels s)) false in
        '(_, der_list, sizing_calls) ←
          sizing_rounds fuel reliability_mod mask analysis_indices der_list;
        let sized := set_size <$> der_list in
        let (reliability_mod, der_list) :=
          reliability_min_soe_iterative reliability_mod mask sized in
        Some (called (sizing_calls
                      ++ (CallSetSize <$> seq 0 (length sized))
                      ++ [CallReliabilityMinSoe])
                (with_fleet der_list
                   (<["Reliability" := reliability_mod]>
                      (value_streams (the_service_agg s))) s))
  end.

End Scenario.

End MicrogridScenario.

(** * Sample instances and auxiliary predicates used in the statements *)

Module Samples.
Import Cvx.

Definition fresh_world : world := mkWorld 0 [] [].

(** The solver assigns [q] to every variable. *)
Definition solved (q : Z) : solution := fun _ => Some (Qc_of_Z q).

(** A storage with every rating given by the user, as the parent
    constructors leave it. *)
Definition fixed_ess (ene ch dis : Z) : ESSSizing.t :=
  ESSSizing.mk "es1" "Battery"
     (Num (Qc_of_Z ene)) (Num (Qc_of_Z ch)) (Num (Qc_of_Z dis))
     (Q2Qc (1 # 5)) (Q2Qc (9 # 10))
     (Num (Q2Qc (1 # 5) * Qc_of_Z ene)) (Num (Q2Qc (9 # 10) * Qc_of_Z ene))
     true (Some [Qc_of_Z 50; Qc_of_Z 60]) false None false None
     [] (Q2Qc (17 # 20)) [Qc_of_Z 0; Qc_of_Z 100; Qc_of_Z 200].

(** A generator whose fixed cost (100 $) and cost per kW (7 $/kW)
    differ, rated 10 kW per unit. *)
Definition ice : DieselSizing.diesel :=
  DieselSizing.mkDiesel "ice1" (Qc_of_Z 100) (Qc_of_Z 7) (Qc_of_Z 10).

End Samples.

Module ESSSizingAux.
Import Cvx ESSSizing.

Definition same_energy_side (s s' : t) : Prop :=
  ene_max_rated s' = ene_max_rated s
  ∧ effective_soe_min s' = effective_soe_min s
  ∧ effective_soe_max s' = effective_soe_max s
  ∧ limit_energy_max s' = limit_energy_max s
  ∧ llsoc s' = llsoc s ∧ ulsoc s' = ulsoc s.

Definition log_extends (w w' : world) : Prop :=
  ∃ more, error_log w' = (error_log w ++ more)%list ∧ user_log w' = user_log w.

(** Two calls of an accessor in a row: both results and both instances
    left behind. *)
Definition twice {A} (m : method A) (self : t) (sol : solution)
  : A * A * t * t :=
  let (r1, s1) := m self sol in
  let (r2, s2) := m s1 sol in
  (r1, r2, s1, s2).

End ESSSizingAux.

(** * A small concrete microgrid for closed statements about the scenario *)

Module ScenarioSamples.
Import MicrogridScenario.

(** A DER that only carries its technology type and an energy rating. *)
Record toy_der : Type := mkToyDer {
  toy_type : string;
  toy_energy : Qc
}.

Global Instance toy_der_eq_dec : EqDecision toy_der.
Proof. solve_decision. Defined.

Global Instance toy_der_class : DERClass toy_der := {|
  technology_type := toy_type;
  apply_past_degredation := fun _ d => d;
  calc_degradation := fun _ _ _ d => d;
  der_save_variable_results := fun _ d => d;
  set_size := fun d => d
|}.

(** A reliability service: the critical load, the outage length to be
    covered (in steps) and the initial state of charge. *)
Record toy_rel : Type := mkToyRel {
  toy_load : list Qc;
  toy_duration : nat;
  toy_soc_init : Qc
}.

Definition sum_list (l : list Qc) : Qc := foldr Qcplus 0 l.

Definition is_storage (d : toy_der) : bool :=
  bool_decide (toy_type d = "Energy Storage System").

Definition toy_limits (rel : toy_rel) (fleet : list toy_der) : der_limits :=
  mkLimits (replicate (length (toy_load rel)) 0)
           (replicate (length (toy_load rel)) 0)
           {["energy rating" :=
               sum_list (toy_energy
                           <$> filter (fun d => is_storage d = true) fleet)]}
           (toy_load rel) (toy_load rel).

(** The storage serves the demand step by step, for at most [steps]
    steps, until the demand of a step exceeds the energy left. *)
Fixpoint toy_simulate (demand : list Qc) (steps : nat) (soc : Qc)
  : list Qc :=
  match steps, demand with
  | S steps, d :: demand =>
      if bool_decide (d ≤ soc) then (soc - d) :: toy_simulate demand steps (soc - d)
      else []
  | _, _ => []
  end.

(** The energy an outage of [toy_duration] steps starting at [i] needs. *)
Definition window_need (rel : toy_rel) (i : nat) : Qc :=
  sum_list (take (toy_duration rel) (drop i (toy_load rel))).

Definition Qc_max (a b : Qc) : Qc := if bool_decide (a ≤ b) then b else a.

(** Sizing against the candidate outages: every storage gets the energy
    the most demanding candidate needs. *)
Definition toy_sizing (rel : toy_rel) (analysis_indices : list nat)
    (fleet : list toy_der) : list toy_der :=
  let need := foldr Qc_max 0 (window_need rel <$> analysis_indices) in
  (fun d => if is_storage d then mkToyDer (toy_type d) need else d) <$> fleet.

Global Instance toy_rel_class : ValueStreamClass toy_rel toy_der := {|
  vs_save_variable_results := fun _ v => v;
  critical_load := toy_load;
  outage_duration := fun v => Qc_of_Z (Z.of_nat (toy_duration v));
  soc_init := toy_soc_init;
  get_der_limits := fun v fleet _ => toy_limits v fleet;
  reliability_sizing_for_analy_indices := fun v _ idx fleet =>
    toy_sizing v idx fleet;
  simulate_outage := fun v _ demand _ _ soc =>
    toy_simulate demand (toy_duration v) soc;
  reliability_min_soe_iterative := fun v _ fleet => (v, fleet)
|}.

(** An [argsort] that keeps equal keys in their original order. *)
Fixpoint insert_by_key (keys : list Qc) (i : nat) (l : list nat) : list nat :=
  match l with
  | [] => [i]
  | j :: l' =>
      if bool_decide (default 0 (keys !! i) ≤ default 0 (keys !! j))
      then i :: j :: l'
      else j :: insert_by_key keys i l'
  end.

Definition stable_argsort (keys : list Qc) : list nat :=
  foldr (insert_by_key keys) [] (seq 0 (length keys)).

(** A solver stand-in: one row of objective values per window, fleet and
    services unchanged. *)
Global Instance toy_collaborators
  : Collaborators toy_der toy_rel Z unit unit unit := {|
  check_system_requirements := fun _ _ => tt;
  set_up_optimization := fun _ _ _ _ _ _ => tt;
  run_optimization := fun _ opt_period fleet m => ([opt_period], fleet, m);
  annuity_scalar := fun _ => Qc_of_Z 12;
  argsort := stable_argsort
|}.

Definition toy_scenario (sizing wholesale post_facto binary : bool)
    (services : gmap string toy_rel) (levels : list (Z * Z))
  : @MicrogridScenario.t toy_der toy_rel Z unit :=
  MicrogridScenario.mk
    (mkPoi sizing (fun incl_binary => incl_binary)
           [mkToyDer "Energy Storage System" 0; mkToyDer "Generator" 0])
    (mkAgg wholesale post_facto false services)
    binary tt levels [] [] (mkWorld 0 [] []).

(** Thirteen time steps; an outage must be covered for three steps. *)
Definition load13 : list Qc :=
  Qc_of_Z <$> [1; 9; 9; 0; 0; 2; 2; 2; 2; 2; 2; 2; 2]%Z.

Definition rel13 : toy_rel := mkToyRel load13 3 1.

(** The same profile one step later: the demanding outage now starts at
    step 1. *)
Definition rel14 : toy_rel := mkToyRel (Qc_of_Z 1 :: load13) 3 1.

(** Two windows: rows 100-102 belong to window 1, rows 103-104 to
    window 2. *)
Definition levels5 : list (Z * Z) :=
  [(100, 1); (101, 1); (102, 1); (103, 2); (104, 2)]%Z.

(** Eleven steps: nine with unmet load 5, then 1.000001 and 1.000002,
    which [np.around(..., 5)] both turns into 1. *)
Definition load11 : list Qc :=
  replicate 9 (Qc_of_Z 5) ++ [Q2Qc (1000001 # 1000000); Q2Qc (1000002 # 1000000)].

(** The same loads with the last two steps exchanged. *)
Definition load11' : list Qc :=
  replicate 9 (Qc_of_Z 5) ++ [Q2Qc (1000002 # 1000000); Q2Qc (1000001 # 1000000)].

Definition zeros (n : nat) : list Qc := replicate n 0.

(** The candidates [np.argsort] ranks first for [load13]. *)
Definition top13 : list nat := [1; 2; 5; 6; 7; 8; 9; 10; 11; 12]%nat.

End ScenarioSamples.

(** * Predicates on the verification sweep, in the words of the design *)

Module ReliabilityAux.
Import MicrogridScenario.

Section Sweep.
Context {D V : Type}.
Context `{!DERClass D, !ValueStreamClass V D}.

(** How many steps the fleet behind [lim] survives an outage that
    starts at step [i] with the energy [soc !! i]. *)
Definition survived (reliability_mod : V) (lim : der_limits)
    (soc : list Qc) (i : nat) : nat :=
  length (simulate_outage reliability_mod
            (drop i (reliability_check lim)) (drop i (demand_left lim))
            (outage_duration reliability_mod) (ess_properties lim)
            (default 0 (soc !! i))).

(** Step [i] is a failing start: the survival is shorter than the
    required outage and shorter than what is left of the horizon. *)
Definition fails_at (reliability_mod : V) (lim : der_limits)
    (soc : list Qc) (i : nat) : Prop :=
  Qc_of_Z (Z.of_nat (survived reliability_mod lim soc i))
    < outage_duration reliability_mod
  ∧ (survived reliability_mod lim soc i
     < length (critical_load reliability_mod) - i)%nat.

(** The same for a sized fleet, with the state of charge the sweep
    starts every outage from. *)
Definition genuine_failure (reliability_mod : V) (der_list : list D)
    (i : nat) : Prop :=
  let lim := get_der_limits reliability_mod der_list None in
  let n := length (critical_load reliability_mod) in
  fails_at reliability_mod lim
    (replicate n (soc_init reliability_mod
                  * energy_rating (ess_properties lim))) i.

End Sweep.

(** *** Ranking the time steps *)

Definition key_at (keys : list Qc) (i : nat) : Qc := default 0 (keys !! i).

(** What NumPy promises of [argsort] whatever the sorting kind: the
    result lists every position once and the keys ascend along it. *)
Definition sorts (keys : list Qc) (indices : list nat) : Prop :=
  indices ≡ₚ seq 0 (length keys)
  ∧ StronglySorted (fun i j => key_at keys i ≤ key_at keys j) indices.

(** The unmet load itself: critical load minus available generation. *)
Definition unmet_load (critical_load generation total_pv_max : list Qc)
  : list Qc :=
  zip_with Qcminus (zip_with Qcminus critical_load generation) total_pv_max.

(** The ranking in the words of the design: larger unmet load first,
    equal unmet loads in time order.  [i] is earlier than every step of
    [l]. *)
Fixpoint insert_rank (unmet : list Qc) (i : nat) (l : list nat) : list nat :=
  match l with
  | [] => [i]
  | j :: l' =>
      if bool_decide (key_at unmet j ≤ key_at unmet i) then i :: j :: l'
      else j :: insert_rank unmet i l'
  end.

Definition ranking (unmet : list Qc) : list nat :=
  foldr (insert_rank unmet) [] (seq 0 (length unmet)).

Definition spec_initial_outages (unmet : list Qc) : list nat :=
  take 10 (ranking unmet).

End ReliabilityAux.


(** * The rolling horizon, in the words of the design *)

Module RollingHorizonAux.
Import MicrogridScenario.

(** The row at which a window label first appears. *)
Fixpoint index_of (x : Z) (l : list Z) : nat :=
  match l with
  | [] => 0
  | y :: l => if bool_decide (x = y) then 0 else S (index_of x l)
  end.






Section Period.
Context {D V O R P F : Type}.
Context `{!DERClass D, !ValueStreamClass V D, !Collaborators D V O R P F}.

Abbreviation scenario := (@MicrogridScenario.t D V O F).

Definition storage_positions (l : list D) : list nat :=
  (filter (fun r => technology_type r.2 = "Energy Storage System")
          (imap pair l)).*1.

Definition on_storage (f : D -> D) (der : D) : D :=
  if decide (technology_type der = "Energy Storage System") then f der
  else der.

(** One period, started in [s0], makes the calls [b] and ends in [s1]:
    (1) past degradation is applied to every storage DER, (2) the
    window is set up and solved on that fleet, (3) the degradation of
    the period is computed on every storage DER of the solved fleet,
    (4) the rows of objective values are appended, (5) every DER and
    every service saves its results for the rows of the period. *)
Definition period_block (system_requirements : R) (alpha : Qc)
    (s0 : scenario) (opt_period : Z) (b : list call) (s1 : scenario)
  : Prop :=
  let mask :=
    (fun q => bool_decide (q = opt_period)) <$> (optimization_levels s0).*2 in
  let sub_index :=
    (filter (fun r => r.2 = opt_period) (optimization_levels s0)).*1 in
  let first := default 0%Z (head sub_index) in
  let final := default 0%Z (last sub_index) in
  let services0 := value_streams (the_service_agg s0) in
  let fleet1 :=
    on_storage (apply_past_degredation opt_period)
      <$> der_list (the_poi s0) in
  let problem :=
    set_up_optimization mask system_requirements alpha
      (post_facto_reliability_only (the_service_agg s0)) fleet1 services0 in
  ∃ rows fleet2 services2,
    run_optimization problem opt_period fleet1 services0
      = (rows, fleet2, services2)
    ∧ let fleet3 :=
        on_storage (calc_degradation opt_period first final) <$> fleet2 in
      b = (((fun i => CallApplyPastDegredation i opt_period)
              <$> storage_positions (der_list (the_poi s0)))
           ++ [CallSetUpOptimization opt_period alpha;
               CallRunOptimization opt_period]
           ++ ((fun i => CallCalcDegradation i opt_period first final)
                 <$> storage_positions fleet2)
           ++ [CallConcatObjectiveValues opt_period]
           ++ ((fun i => CallDerSaveVariableResults i sub_index)
                 <$> seq 0 (length fleet3))
           ++ [CallVsSaveVariableResults (dom services2) sub_index])%list
      ∧ calls s1 = (calls s0 ++ b)%list
      ∧ objective_values s1 = (objective_values s0 ++ rows)%list
      ∧ der_list (the_poi s1)
        = der_save_variable_results sub_index <$> fleet3
      ∧ value_streams (the_service_agg s1)
        = vs_save_variable_results sub_index <$> services2
      ∧ optimization_levels s1 = optimization_levels s0.


End Period.

End RollingHorizonAux.

(** * The remaining methods of the sizing classes *)

(** ** Results of methods that can also fail on a missing key or index *)

Inductive pyerror : Type :=
  | KeyError (key : string)
  | IndexError
  | OSError (path : list string)
  | Fault (e : exn).

Inductive res (A : Type) : Type :=
  | Ok (a : A)
  | Err (e : pyerror).
Arguments Ok {A} a.
Arguments Err {A} e.

(** ** When an assignment of the variables satisfies a constraint *)

Module CvxSemantics.
Import Cvx.

Definition holds (sol : solution) (c : constraint) : Prop :=
  match c with
  | NonPos e => ∃ q, expr_value sol e = Some q ∧ q ≤ 0
  end.

(** A constraint of the problem: a scalar one, or [cvx.NonPos] of a vector
    expression, given by its components. *)
Inductive problem_constraint : Type :=
  | Scalar (c : constraint)
  | NonPosVec (es : list expr).

Definition satisfies (sol : solution) (c : problem_constraint) : Prop :=
  match c with
  | Scalar c => holds sol c
  | NonPosVec es => Forall (fun e => holds sol (NonPos e)) es
  end.

(** A number or a CVXPY object as an operand of a CVXPY operator. *)
Definition as_expr (o : pyobj) : res expr :=
  match o with
  | Num q => Ok (Const q)
  | Obj e => Ok e
  | PyNone => Err (Fault TypeError)
  end.

End CvxSemantics.

(** ** MicrogridDER/ESSSizing.py, lines 151-243 *)

Module ESSSizingMethods.
Import Cvx ESSSizing.

(** [constraints(mask)]: the list [super().constraints(mask)] returned,
    extended by the size constraints. *)
Definition constraints (super_constraints : list constraint) (self : t)
  : list constraint :=
  (super_constraints ++ size_constraints self)%list.

(** [objective_function]: [costs] is what [super().objective_function]
    returned and [capex] what [self.get_capex()] returned. *)
Definition objective_function (costs : gmap string pyobj) (capex : pyobj)
    (self : t) : gmap string pyobj :=
  <[name self +:+ "capex" := capex]> costs.

(** The dictionary [sizing_summary] builds. *)
Record sizing_results : Type := mkResults {
  DER : string;
  Energy_Rating_kWh : pyobj;
  Charge_Rating_kW : pyobj;
  Discharge_Rating_kW : pyobj;
  Round_Trip_Efficiency : Qc;
  Lower_Limit_on_SOC : Qc;
  Upper_Limit_on_SOC : Qc;
  Duration_hours : quotient;
  Capital_Cost : Qc;
  Capital_Cost_per_kW : Qc;
  Capital_Cost_per_kWh : Qc
}.

(** [l[i]] *)
Definition item (l : list Qc) (i : nat) : res Qc :=
  match l !! i with
  | Some x => Ok x
  | None => Err IndexError
  end.

(** [v > 24] for the duration. *)
Definition exceeds_24 (v : quotient) : bool := exceeds (Qc_of_Z 24) v.

(** [sizing_summary]: the entries of the dictionary are evaluated in the
    order they are written, then the duration is compared with 24. *)
Definition sizing_summary (self : t) (sol : solution)
  : M (res sizing_results) :=
  let (energy, self) := energy_capacity true self sol in
  let (charge, self) := charge_capacity true self sol in
  let (discharge, self) := discharge_capacity true self sol in
  '(duration, self) ← calculate_duration self sol;
  match duration with
  | Raise e => mret (Err (Fault e))
  | Return duration =>
      match item (capital_cost_function self) 0,
            item (capital_cost_function self) 1,
            item (capital_cost_function self) 2 with
      | Ok c0, Ok c1, Ok c2 =>
          let sizing_results :=
            mkResults (name self) energy charge discharge (rte self)
                      (llsoc self) (ulsoc self) duration c0 c1 c2 in
          if exceeds_24 duration then
            u_logger_error ("The duration of " +:+ name self
                            +:+ " is greater than 24 hours!");;
            mret (Ok sizing_results)
          else mret (Ok sizing_results)
      | Err e, _, _ => mret (Err e)
      | _, Err e, _ => mret (Err e)
      | _, _, Err e => mret (Err e)
      end
  end.

(** The price attributes [update_for_evaluation] writes, as
    [super().update_for_evaluation(input_dict)] leaves them. *)
Record evaluation_attrs : Type := mkEval {
  fixedOM_perKW : Qc;
  variable_om : Qc;
  incl_startup : bool;
  p_start_ch : Qc;
  p_start_dis : Qc
}.

(** [update_for_evaluation]; [input_dict.get(key)] is the entry or [None],
    and a [None] entry leaves the attribute alone. *)
Definition update_for_evaluation (input_dict : gmap string Qc)
    (a : evaluation_attrs) : evaluation_attrs :=
  let a :=
    match input_dict !! "fixedOM" with
    | Some fixed_om =>
        mkEval fixed_om (variable_om a) (incl_startup a) (p_start_ch a)
               (p_start_dis a)
    | None => a
    end in
  let a :=
    match input_dict !! "OMexpenses" with
    | Some variable_om =>
        mkEval (fixedOM_perKW a) (variable_om * Qc_of_Z 100) (incl_startup a)
               (p_start_ch a) (p_start_dis a)
    | None => a
    end in
  if incl_startup a then
    let a :=
      match input_dict !! "p_start_ch" with
      | Some p_start_ch =>
          mkEval (fixedOM_perKW a) (variable_om a) (incl_startup a) p_start_ch
                 (p_start_dis a)
      | None => a
      end in
    match input_dict !! "p_start_dis" with
    | Some p_start_dis =>
        mkEval (fixedOM_perKW a) (variable_om a) (incl_startup a)
               (p_start_ch a) p_start_dis
    | None => a
    end
  else a.

End ESSSizingMethods.

(** ** TechnologiesDER/DieselSizing.py, lines 38-59 *)

Module DieselSizingMethods.
Import Cvx CvxSemantics DieselSizing.

(** [build_master_constraints]: [super_constraints] is the list the parent
    class returned, [variables] the dictionary of the window's variables;
    ['ice_gen'] is a vector with one variable per time step. *)
Definition build_master_constraints
    (super_constraints : list problem_constraint)
    (variables : gmap string (list variable)) (self : t)
  : res (list problem_constraint) :=
  match variables !! "ice_gen" with
  | None => Err (KeyError "ice_gen")
  | Some ice_gen =>
      match as_expr (n self) with
      | Err e => Err e
      | Ok n =>
          Ok (super_constraints
              ++ [Scalar (NonPos (Plus (Const (n_min self)) (Neg n)))]
              ++ [Scalar (NonPos (Plus n (Neg (Const (n_max self)))))]
              ++ [NonPosVec ((fun g => Plus (Var g) (Neg (Scale (p_max self) n)))
                               <$> ice_gen)])%list
      end
  end.

End DieselSizingMethods.

(** ** dervet/MicrogridResult.py *)

Module MicrogridResult.




Section Result.
(** [DF] is a data frame. *)
Context {DF : Type}.

Record t : Type := mk {
  opt_engine : bool;
  drill_down_dict : gmap string DF;
  sizing_df : DF;
  csv_label : string;
  dir_abs_path : list string;   (* the components of the path *)
  equipment_lifetime_report : DF;
  tax_calculations : option DF;
  ecc_df : option DF
}.

Definition set_drill_down_dict (d : gmap string DF) (r : t) : t :=
  mk (opt_engine r) d (sizing_df r) (csv_label r) (dir_abs_path r)
     (equipment_lifetime_report r) (tax_calculations r) (ecc_df r).

(** [d.update(other)] *)
Definition update (other d : gmap string DF) : gmap string DF := other ∪ d.

(** [create_drill_down_dfs]: [poi_dfs] and [service_agg_dfs] are what the
    two [drill_down_dfs] calls return; the POI is asked only when the
    optimization engine ran. *)
Definition create_drill_down_dfs (poi_dfs service_agg_dfs : gmap string DF)
    (r : t) : t :=
  let r :=
    if opt_engine r
    then set_drill_down_dict (update poi_dfs (drill_down_dict r)) r
    else r in
  set_drill_down_dict (update service_agg_dfs (drill_down_dict r)) r.


(** Whether the file system lets [to_csv] create the file at a path (the
    directory exists and can be written to). *)
Variable creatable : list string -> bool.





End Result.

End MicrogridResult.

(** ** Auxiliary notions for the statements about the added code *)

Module ConstructorAux.
Import Cvx ESSSizing.

(** The names of the variables [ESSSizing.__init__] creates for an
    instance, in the order of creation. *)
Definition created_names (s : t) : list string :=
  (if truthy (ene_max_rated s) then [] else ["Energy_cap"])
  ++ (if truthy (ch_max_rated s)
      then (if truthy (dis_max_rated s) then [] else ["discharge_power_cap"])
      else (if truthy (dis_max_rated s) then ["charge_power_cap"]
            else ["power_cap"])).

(** The name of the power variable the constructor creates. *)
Definition power_name (s : t) : string :=
  if truthy (ch_max_rated s) then "discharge_power_cap"
  else if truthy (dis_max_rated s) then "charge_power_cap"
  else "power_cap".

(** A time-series limit is configured when its flag is set and the series
    is present. *)
Definition configured (flag : bool) (limit : option (list Qc)) : bool :=
  flag && bool_decide (limit ≠ None).

Definition count_true (l : list bool) : nat :=
  foldr (fun (b : bool) n => if b then S n else n) 0%nat l.

End ConstructorAux.

Module ScenarioAux.
Import MicrogridScenario.

(** The calls that set up or run an optimization. *)
Definition is_solver_call (c : call) : bool :=
  match c with
  | CallSetUpOptimization _ _ | CallRunOptimization _ => true
  | _ => false
  end.

Section Config.
Context {D V O F : Type}.

(** Two scenarios have the same configuration: time series windows, flags
    and finance inputs. *)
Definition same_configuration (s s' : @MicrogridScenario.t D V O F) : Prop :=
  optimization_levels s' = optimization_levels s
  ∧ incl_binary s' = incl_binary s
  ∧ finance_inputs s' = finance_inputs s
  ∧ is_sizing_optimization (the_poi s') = is_sizing_optimization (the_poi s)
  ∧ is_dcp_error (the_poi s') = is_dcp_error (the_poi s)
  ∧ is_whole_sale_market (the_service_agg s')
    = is_whole_sale_market (the_service_agg s)
  ∧ post_facto_reliability_only (the_service_agg s')
    = post_facto_reliability_only (the_service_agg s)
  ∧ is_deferral_only (the_service_agg s') = is_deferral_only (the_service_agg s).

End Config.

(** A reliability service whose sizing never changes the fleet: two time
    steps, the second of which cannot be served. *)
Record stuck_rel : Type := mkStuck { stuck_load : list Qc }.

Global Instance stuck_rel_class
  : ValueStreamClass stuck_rel ScenarioSamples.toy_der := {|
  vs_save_variable_results := fun _ v => v;
  critical_load := stuck_load;
  outage_duration := fun _ => 1;
  soc_init := fun _ => 1;
  get_der_limits := fun v _ _ =>
    mkLimits [] [] {["energy rating" := 0]} (stuck_load v) (stuck_load v);
  reliability_sizing_for_analy_indices := fun _ _ _ fleet => fleet;
  simulate_outage := fun _ _ demand _ _ soc =>
    ScenarioSamples.toy_simulate demand 1 soc;
  reliability_min_soe_iterative := fun v _ fleet => (v, fleet)
|}.

Definition stuck : stuck_rel := mkStuck [0; Qc_of_Z 5].

End ScenarioAux.

(** * Properties of [ESSSizing] *)

Module ESSSizingProofs.
Import Cvx ESSSizing Samples ESSSizingAux.

(** Closed equations between rationals are decided on their canonical
    representatives. *)
Ltac qc_eq := apply Qc_is_canon; reflexivity.

(** *** The second half of the constructor leaves the energy side alone *)

Lemma drop_charge_limit_frame s w :
  same_energy_side s (drop_charge_limit s w).1
  ∧ log_extends w (drop_charge_limit s w).2.
Proof.
  unfold drop_charge_limit.
  destruct (incl_charge_limits s && _); simpl.
  - split; [by repeat split | by eexists].
  - split; [by repeat split | exists []; by rewrite app_nil_r].
Qed.

Lemma drop_discharge_limit_frame s w :
  same_energy_side s (drop_discharge_limit s w).1
  ∧ log_extends w (drop_discharge_limit s w).2.
Proof.
  unfold drop_discharge_limit.
  destruct (incl_discharge_limits s && _); simpl.
  - split; [by repeat split | by eexists].
  - split; [by repeat split | exists []; by rewrite app_nil_r].
Qed.

Lemma same_energy_side_trans s1 s2 s3 :
  same_energy_side s1 s2 → same_energy_side s2 s3 → same_energy_side s1 s3.
Proof.
  intros (?&?&?&?&?&?) (?&?&?&?&?&?). repeat split; congruence.
Qed.

Lemma log_extends_trans w1 w2 w3 :
  log_extends w1 w2 → log_extends w2 w3 → log_extends w1 w3.
Proof.
  intros (m1 & E1 & U1) (m2 & E2 & U2). exists (m1 ++ m2)%list.
  rewrite E2, E1, U2, U1. by rewrite (assoc_L (++)).
Qed.

Ltac step_drop :=
  match goal with
  | |- context [drop_charge_limit ?a ?b] =>
      let Hs := fresh "Hs" in
      let Hw := fresh "Hw" in
      pose proof (drop_charge_limit_frame a b) as [Hs Hw];
      destruct (drop_charge_limit a b); simpl in Hs, Hw |- *
  | |- context [drop_discharge_limit ?a ?b] =>
      let Hs := fresh "Hs" in
      let Hw := fresh "Hw" in
      pose proof (drop_discharge_limit_frame a b) as [Hs Hw];
      destruct (drop_discharge_limit a b); simpl in Hs, Hw |- *
  end.

Lemma same_energy_side_refl s : same_energy_side s s.
Proof. by repeat split. Qed.

Lemma log_extends_fresh_id w n :
  log_extends w (mkWorld n (error_log w) (user_log w)).
Proof. exists []. simpl. by rewrite app_nil_r. Qed.

Lemma log_extends_refl w : log_extends w w.
Proof. exists []. by rewrite app_nil_r. Qed.

Lemma init_power_frame s w :
  same_energy_side s (init_power s w).1 ∧ log_extends w (init_power s w).2.
Proof.
  unfold init_power.
  destruct (negb (truthy (ch_max_rated s)) && negb (truthy (dis_max_rated s))).
  - unfold mbind, M_bind, new_Variable. repeat step_drop.
    split.
    + eapply same_energy_side_trans; [|eassumption].
      eapply same_energy_side_trans; [|eassumption]. by repeat split.
    + eapply log_extends_trans; [|eassumption].
      eapply log_extends_trans; [|eassumption]. apply log_extends_fresh_id.
  - destruct (negb (truthy (ch_max_rated s))).
    + unfold mbind, M_bind, new_Variable. step_drop.
      split.
      * eapply same_energy_side_trans; [|eassumption]. by repeat split.
      * eapply log_extends_trans; [|eassumption]. apply log_extends_fresh_id.
    + destruct (negb (truthy (dis_max_rated s))).
      * unfold mbind, M_bind, new_Variable. step_drop.
        split.
        -- eapply same_energy_side_trans; [|eassumption]. by repeat split.
        -- eapply log_extends_trans; [|eassumption]. apply log_extends_fresh_id.
      * split; [apply same_energy_side_refl | apply log_extends_refl].
Qed.

(** *** C1 *)

(** The discharge accessor does return its own rating. *)
Lemma discharge_capacity_presolve self sol :
  discharge_capacity false self sol = (dis_max_rated self, self).
Proof. reflexivity. Qed.

(** What line 99 does for every instance. *)
Lemma charge_capacity_presolve self sol :
  charge_capacity false self sol = (dis_max_rated self, self).
Proof. reflexivity. Qed.

(** C1: for a storage built with charge rating 0 and discharge rating 7
    the constructor creates the charge variable ['charge_power_cap'], yet
    [charge_capacity(solution=False)] hands back the discharge rating 7
    and not that variable; [discharge_capacity(solution=False)] returns
    the discharge rating. *)
Theorem charge_capacity_presolve_is_discharge_rating :
  let self := (__init__ (fixed_ess 100 0 7) fresh_world).1 in
  ch_max_rated self = Obj (Var (mkVariable 0 "charge_power_cap" true))
  ∧ (charge_capacity false self (solved 3)).1 = Num (Qc_of_Z 7)
  ∧ (charge_capacity false self (solved 3)).1 ≠ ch_max_rated self
  ∧ (discharge_capacity false self (solved 3)).1 = dis_max_rated self.
Proof. cbv zeta. split_and!; [reflexivity | reflexivity | discriminate | reflexivity]. Qed.

(** *** C7 *)

Lemma init_energy_sized s w :
  truthy (ene_max_rated s) = false →
  let v := mkVariable (next_id w) "Energy_cap" true in
  let s' := (init_energy s w).1 in
  let w' := (init_energy s w).2 in
  ene_max_rated s' = Obj (Var v)
  ∧ effective_soe_min s' = Obj (Scale (llsoc s) (Var v))
  ∧ effective_soe_max s' = Obj (Scale (ulsoc s) (Var v))
  ∧ llsoc s' = llsoc s ∧ ulsoc s' = ulsoc s
  ∧ (if incl_energy_limits s && bool_decide (limit_energy_max s ≠ None)
     then limit_energy_max s' = None
          ∧ error_log w' = (error_log w ++ [ignoring "energy" s "energy"])%list
     else limit_energy_max s' = limit_energy_max s
          ∧ error_log w' = error_log w)
  ∧ user_log w' = user_log w.
Proof.
  intros Hz. unfold init_energy. rewrite Hz. cbn.
  destruct (incl_energy_limits s && _); cbn; by split_and!.
Qed.

(** C7: when the energy rating given to the constructor is zero, the
    finished instance holds the new variable ['Energy_cap'] as its energy
    rating, its state-of-energy bounds are [llsoc * Energy_cap] and
    [ulsoc * Energy_cap], a time-varying energy limit that was configured
    ([incl_energy_limits] set and [limit_energy_max] present) is [None]
    and the message about it is in the error log; the two operational
    accessors return these bounds before a solve and, with
    [solution=True], the fraction times the resolved energy capacity. *)
Theorem energy_sizing_recomputes_soe_bounds (s : t) (w : world) (sol : solution) :
  truthy (ene_max_rated s) = false →
  let v := mkVariable (next_id w) "Energy_cap" true in
  let self := (__init__ s w).1 in
  let w' := (__init__ s w).2 in
  ene_max_rated self = Obj (Var v)
  ∧ effective_soe_min self = Obj (Scale (llsoc self) (Var v))
  ∧ effective_soe_max self = Obj (Scale (ulsoc self) (Var v))
  ∧ (if incl_energy_limits s && bool_decide (limit_energy_max s ≠ None)
     then limit_energy_max self = None
          ∧ ignoring "energy" s "energy" ∈ error_log w'
     else limit_energy_max self = limit_energy_max s)
  ∧ (operational_min_energy false self sol).1 = Obj (Scale (llsoc self) (Var v))
  ∧ (operational_max_energy false self sol).1 = Obj (Scale (ulsoc self) (Var v))
  ∧ (energy_capacity true self sol).1 = of_option (sol (next_id w))
  ∧ (operational_min_energy true self sol).1
    = of_option (Qcmult (llsoc self) <$> sol (next_id w))
  ∧ (operational_max_energy true self sol).1
    = of_option (Qcmult (ulsoc self) <$> sol (next_id w)).
Proof.
  intros Hz v self w'.
  pose proof (init_energy_sized s w Hz) as H. cbv zeta in H.
  destruct H as (He & Hmin & Hmax & Hll & Hul & Hlim & _).
  assert (Hrun : __init__ s w = init_power (init_energy s w).1 (init_energy s w).2).
  { unfold __init__, mbind, M_bind. by destruct (init_energy s w). }
  pose proof (init_power_frame (init_energy s w).1 (init_energy s w).2)
    as [(Pe & Pmin & Pmax & Plim & Pll & Pul) (more & Plog & _)].
  subst v self w'. rewrite Hrun.
  set (self := (init_power _ _).1) in *.
  set (w' := (init_power _ _).2) in *.
  set (v := mkVariable _ _ _) in *.
  assert (Ee : ene_max_rated self = Obj (Var v)) by congruence.
  assert (Emin : effective_soe_min self = Obj (Scale (llsoc self) (Var v)))
    by congruence.
  assert (Emax : effective_soe_max self = Obj (Scale (ulsoc self) (Var v)))
    by congruence.
  split_and!; try done.
  - destruct (incl_energy_limits s && _).
    + destruct Hlim as [Hn Hl]. split; [congruence|].
      rewrite Plog, Hl, !elem_of_app. left. right. by left.
    + destruct Hlim as [Hn _]. congruence.
  - change (value_or_self sol (ene_max_rated self) = of_option (sol (var_id v))).
    by rewrite Ee.
  - change (value_or_self sol (effective_soe_min self)
            = of_option (Qcmult (llsoc self) <$> sol (var_id v))).
    by rewrite Emin.
  - change (value_or_self sol (effective_soe_max self)
            = of_option (Qcmult (ulsoc self) <$> sol (var_id v))).
    by rewrite Emax.
Qed.

Lemma energy_sizing_recomputes_soe_bounds_witness :
  let s := fixed_ess 0 5 5 in
  let self := (__init__ s fresh_world).1 in
  truthy (ene_max_rated s) = false
  ∧ limit_energy_max self = None
  ∧ (operational_max_energy true self (solved 40)).1
    = of_option (Qcmult (ulsoc self) <$> Some (Qc_of_Z 40)).
Proof.
  cbv zeta.
  pose proof (energy_sizing_recomputes_soe_bounds (fixed_ess 0 5 5)
                fresh_world (solved 40) eq_refl) as H.
  cbv zeta in H.
  destruct H as (_ & _ & _ & Hlim & _ & _ & _ & _ & Hmax).
  split; [reflexivity|]. split; [exact (proj1 Hlim) | exact Hmax].
Defined.

(** *** C8 *)

(** C8: [energy_capacity], [discharge_capacity] and [charge_capacity]
    with [solution=True] leave the instance as it was, give the same
    result when called a second time, and that result is the solved value
    of the variable when the rating is a decision variable and the number
    itself when the rating is a literal. *)
Theorem resolving_a_rating_is_idempotent (self : t) (sol : solution) :
  let resolve o :=
    match o with
    | Obj (Var v) => of_option (sol (var_id v))
    | Obj e => of_option (expr_value sol e)
    | Num q => Num q
    | PyNone => PyNone
    end in
  twice (energy_capacity true) self sol
    = (resolve (ene_max_rated self), resolve (ene_max_rated self), self, self)
  ∧ twice (discharge_capacity true) self sol
    = (resolve (dis_max_rated self), resolve (dis_max_rated self), self, self)
  ∧ twice (charge_capacity true) self sol
    = (resolve (ch_max_rated self), resolve (ch_max_rated self), self, self).
Proof.
  cbv zeta. unfold twice, energy_capacity, discharge_capacity, charge_capacity.
  simpl. unfold value_or_self, value.
  split_and!.
  - destruct (ene_max_rated self) as [q|[]|]; reflexivity.
  - destruct (dis_max_rated self) as [q|[]|]; reflexivity.
  - destruct (ch_max_rated self) as [q|[]|]; reflexivity.
Qed.

(** *** C3 *)

(** The constructor leaves no rating that Python takes for false: a zero
    or missing rating has become a variable. *)
Lemma init_power_truthy s w :
  truthy (ch_max_rated (init_power s w).1) = true
  ∧ truthy (dis_max_rated (init_power s w).1) = true.
Proof.
  unfold init_power, drop_charge_limit, drop_discharge_limit, mbind, M_bind,
    mret, M_ret, new_Variable, e_logger_error, add_nonneg.
  destruct (truthy (ch_max_rated s)) eqn:Hc,
    (truthy (dis_max_rated s)) eqn:Hd; cbn;
    repeat match goal with
           | |- context [if ?b && bool_decide ?P then _ else _] =>
               destruct (b && bool_decide P); cbn
           end; by split.
Qed.

Lemma init_discharge_truthy s w :
  truthy (dis_max_rated (__init__ s w).1) = true.
Proof.
  unfold __init__, mbind, M_bind. destruct (init_energy s w) as [s1 w1].
  apply init_power_truthy.
Qed.

(** A rating that is not false for Python and resolves to zero is a CVXPY
    object. *)
Lemma zero_value_is_array (sol : solution) (o : pyobj) :
  truthy o = true → value_or_self sol o = Num 0 → has_value o = true.
Proof.
  destruct o as [q| |]; cbn; [|done..].
  intros Hq [= ->]. by rewrite bool_decide_eq_true_2 in Hq.
Qed.

(** What [calculate_duration] does once both ratings resolve to
    numbers. *)
Lemma calculate_duration_resolved (self : t) (sol : solution) (w : world)
    (e d : Qc) :
  value_or_self sol (ene_max_rated self) = Num e →
  value_or_self sol (dis_max_rated self) = Num d →
  calculate_duration self sol w
  = ((div (has_value (ene_max_rated self) || has_value (dis_max_rated self))
          (Num e) (Num d), self), w).
Proof.
  intros He Hd. unfold calculate_duration, discharge_capacity. simpl.
  by rewrite He, Hd.
Qed.

(** The quotient NumPy leaves for a zero divisor is not a number. *)
Lemma div_array_by_zero (e : Qc) :
  ∃ x, div true (Num e) (Num 0) = Return x ∧ ∀ q, x ≠ Quot q.
Proof.
  unfold div. rewrite bool_decide_eq_true_2 by reflexivity.
  eexists. split; [reflexivity|]. intros q. by case_bool_decide.
Qed.

(** C3, as stated, fails: with the discharge rating sized by the
    constructor and solved to zero, [calculate_duration] reports no error.
    It returns the infinite quotient of NumPy's division; neither logger
    receives a message and nothing is raised. *)
Lemma calculate_duration_zero_discharge_is_silent :
  let sized := (__init__ (fixed_ess 100 5 0) fresh_world).1 in
  dis_max_rated sized = Obj (Var (mkVariable 0 "discharge_power_cap" true))
  ∧ calculate_duration sized (solved 0) fresh_world
    = ((Return (Inf false), sized), fresh_world).
Proof. cbv zeta. split; reflexivity. Qed.

(** C3, amended: for every instance the constructor builds,
    [calculate_duration] changes neither the instance nor the loggers and
    raises nothing once the energy rating resolves to [e] and the
    discharge rating to [d]: it returns [e / d] if [d] is not zero, and for
    [d = 0] the division is carried out all the same and its result, which
    is not a number, is returned.  The constructor never leaves the
    discharge rating at the number zero, so a zero can only be the solved
    value of the discharge variable. *)
Theorem calculate_duration_divides_unguarded
    (s : t) (w0 : world) (sol : solution) (w : world) (e d : Qc) :
  let self := (__init__ s w0).1 in
  value_or_self sol (ene_max_rated self) = Num e →
  value_or_self sol (dis_max_rated self) = Num d →
  dis_max_rated self ≠ Num 0
  ∧ ∃ x, calculate_duration self sol w = ((Return x, self), w)
         ∧ (d ≠ 0 → x = Quot (e / d))
         ∧ (d = 0 → ∀ q, x ≠ Quot q).
Proof.
  cbv zeta. intros He Hd.
  pose proof (init_discharge_truthy s w0) as Ht.
  split.
  { intros E. rewrite E in Ht. cbn in Ht.
    by rewrite bool_decide_eq_true_2 in Ht. }
  rewrite (calculate_duration_resolved _ sol w e d He Hd).
  destruct (decide (d = 0)) as [-> | Hnz].
  - rewrite (zero_value_is_array sol _ Ht Hd), orb_true_r.
    destruct (div_array_by_zero e) as (x & -> & Hx).
    exists x. split_and!; [reflexivity | done | by intros _].
  - unfold div. rewrite bool_decide_eq_false_2 by exact Hnz.
    eexists. split_and!; [reflexivity | done | done].
Qed.

Lemma calculate_duration_divides_unguarded_witness :
  let self := (__init__ (fixed_ess 100 10 10) fresh_world).1 in
  calculate_duration self (solved 0) fresh_world
  = ((Return (Quot (Qc_of_Z 10)), self), fresh_world).
Proof.
  cbv zeta.
  destruct (calculate_duration_divides_unguarded (fixed_ess 100 10 10)
              fresh_world (solved 0) fresh_world (Qc_of_Z 100) (Qc_of_Z 10)
              eq_refl eq_refl) as (_ & x & Hx & Hq & _).
  rewrite Hx, (Hq ltac:(discriminate)).
  replace (Qc_of_Z 100 / Qc_of_Z 10) with (Qc_of_Z 10) by qc_eq.
  reflexivity.
Defined.

End ESSSizingProofs.

(** * Properties of [DieselSizing] *)

Module DieselSizingProofs.
Import Cvx DieselSizing Samples.

(** The value of the capital cost expression of any generator once the
    unit count is solved to [k]. *)
Lemma capex_value base n_min n_max w sol k :
  sol (next_id w) = Some k →
  let self := (__init__ base n_min n_max w).1 in
  value sol (capex self)
    = Return (Num (diesel_capital_cost base * k
                   + diesel_capital_cost base * diesel_p_max base)).
Proof. intros Hk. simpl. by rewrite Hk. Qed.

(** C4: for a generator with fixed cost 100, cost per kW 7 and 10 kW per
    unit, and a unit count solved to 2, the capital cost expression is
    worth [100 * 2 + 100 * 10 = 1200]; the [$/kW] coefficient 7, which
    [sizing_summary] reports as 'Capital Cost ($/kW)', does not enter it,
    and [100 * 2 + 7 * 10] is 270. *)
Theorem capex_uses_fixed_cost_twice :
  let self := (__init__ ice 1 (Qc_of_Z 5) fresh_world).1 in
  let sol := solved 2 in
  value sol (capex self) = Return (Num (Qc_of_Z 1200))
  ∧ capital_cost self * Qc_of_Z 2 + ccost_kw self * p_max self = Qc_of_Z 270
  ∧ value sol (capex self)
    ≠ Return (Num (capital_cost self * Qc_of_Z 2 + ccost_kw self * p_max self))
  ∧ (∃ per_unit,
      sizing_summary self sol
      = Return [ ("Power Capacity (kW)", per_unit);
                 ("Capital Cost ($)", Value (Num (Qc_of_Z 100)));
                 ("Capital Cost ($/kW)", Value (Num (Qc_of_Z 7)));
                 ("Quantity", Value (Num (Qc_of_Z 2))) ]).
Proof.
  cbv zeta. split_and!.
  - simpl. do 2 f_equal. apply Qc_is_canon. reflexivity.
  - apply Qc_is_canon. reflexivity.
  - simpl. intros H. injection H as H. vm_compute in H. discriminate H.
  - eexists. reflexivity.
Qed.

End DieselSizingProofs.

(** * Properties of [MicrogridScenario] *)

Module MicrogridScenarioProofs.
Import MicrogridScenario ScenarioSamples.

Section Guards.
Context {D V O R P F : Type}.
Context `{!DERClass D, !ValueStreamClass V D, !Collaborators D V O R P F}.

Abbreviation scenario := (@MicrogridScenario.t D V O F).

(** C6: in sizing mode, when only wholesale-market services are
    active, or only post-facto reliability is requested, or the POI
    reports power sizing together with the binary formulation,
    [optimize_problem_loop] returns [False]; it has made no call to set
    up or run an optimization, the fleet, the services and the
    objective values are as before, and one message has been added to
    the error log. *)
Theorem unsizable_configuration_fails_before_solving (s : scenario) :
  is_sizing_optimization (the_poi s) = true →
  is_whole_sale_market (the_service_agg s) = true
  ∨ post_facto_reliability_only (the_service_agg s) = true
  ∨ is_dcp_error (the_poi s) (incl_binary s) = true →
  let r := optimize_problem_loop s in
  r.1 = false
  ∧ calls r.2 = calls s
  ∧ the_poi r.2 = the_poi s
  ∧ the_service_agg r.2 = the_service_agg s
  ∧ objective_values r.2 = objective_values s
  ∧ (∃ msg, error_log (logs r.2) = (error_log (logs s) ++ [msg])%list)
  ∧ user_log (logs r.2) = user_log (logs s).
Proof.
  intros Hs Hc. unfold optimize_problem_loop. rewrite Hs.
  destruct (is_whole_sale_market (the_service_agg s)).
  { simpl. split_and!; try done. by eexists. }
  destruct (post_facto_reliability_only (the_service_agg s)).
  { simpl. split_and!; try done. by eexists. }
  destruct (is_dcp_error (the_poi s) (incl_binary s)).
  { simpl. split_and!; try done. by eexists. }
  destruct Hc as [Hc | [Hc | Hc]]; discriminate Hc.
Qed.

(** C10: without a ['Reliability'] value stream, or outside sizing
    mode, [Reliability_based_sizing_module] returns at once, whatever
    bound is put on its sizing loop, and the scenario it leaves is the
    scenario it was given: same fleet, same services, same objective
    values, same logs, and no call made. *)
Theorem reliability_sizing_skipped (fuel : nat) (s : scenario) :
  value_streams (the_service_agg s) !! "Reliability" = None
  ∨ is_sizing_optimization (the_poi s) = false →
  Reliability_based_sizing_module fuel s = Some s.
Proof.
  intros [Hn | Hs]; unfold Reliability_based_sizing_module.
  - by rewrite Hn.
  - rewrite Hs. by destruct (_ !! _).
Qed.

End Guards.

Lemma unsizable_configuration_fails_before_solving_witness :
  let s := toy_scenario true false false true {["Reliability" := rel13]} levels5 in
  (optimize_problem_loop s).1 = false ∧ calls (optimize_problem_loop s).2 = [].
Proof.
  cbv zeta.
  pose proof (unsizable_configuration_fails_before_solving
                (toy_scenario true false false true {["Reliability" := rel13]} levels5)
                eq_refl (or_intror (or_intror eq_refl))) as H.
  cbv zeta in H. destruct H as (H1 & H2 & _). split; [exact H1 | exact H2].
Defined.

Lemma reliability_sizing_skipped_witness :
  let s := toy_scenario false false false false {["Reliability" := rel13]} levels5 in
  Reliability_based_sizing_module 0 s = Some s
  ∧ Reliability_based_sizing_module 0 (toy_scenario true false false false ∅ levels5)
    = Some (toy_scenario true false false false ∅ levels5).
Proof.
  cbv zeta. split.
  - apply reliability_sizing_skipped. right. reflexivity.
  - apply reliability_sizing_skipped. left. reflexivity.
Defined.

End MicrogridScenarioProofs.

Module ReliabilityLoopProofs.
Import MicrogridScenario ScenarioSamples ReliabilityAux.

Section Sweep.
Context {D V : Type}.
Context `{!DERClass D, !ValueStreamClass V D}.

(** The inner loop stops at the first failing start, and answers -1
    when no start in its range fails. *)
Lemma first_failure_least (rel : V) lim soc steps i :
  (first_failure rel lim soc steps i = (-1)%Z
   ∧ ∀ j, (i ≤ j < i + steps)%nat → ¬ fails_at rel lim soc j)
  ∨ (∃ k, first_failure rel lim soc steps i = Z.of_nat k
          ∧ (i ≤ k < i + steps)%nat
          ∧ fails_at rel lim soc k
          ∧ ∀ j, (i ≤ j < k)%nat → ¬ fails_at rel lim soc j).
Proof.
  revert i. induction steps as [|steps IH]; intros i.
  - left. split; [reflexivity | intros j Hj; lia].
  - cbn [first_failure].
    fold (survived rel lim soc i).
    assert (Hnot : ¬ fails_at rel lim soc i →
            (first_failure rel lim soc steps (S i) = (-1)%Z
             ∧ ∀ j, (i ≤ j < i + S steps)%nat → ¬ fails_at rel lim soc j)
            ∨ (∃ k, first_failure rel lim soc steps (S i) = Z.of_nat k
                    ∧ (i ≤ k < i + S steps)%nat
                    ∧ fails_at rel lim soc k
                    ∧ ∀ j, (i ≤ j < k)%nat → ¬ fails_at rel lim soc j)).
    { intros Hi. destruct (IH (S i)) as [[E Hn] | (k & E & Hk & Hf & Hn)].
      - left. split; [exact E|]. intros j Hj.
        destruct (decide (j = i)) as [->|]; [exact Hi | apply Hn; lia].
      - right. exists k. split; [exact E|]. split; [lia|]. split; [exact Hf|].
        intros j Hj.
        destruct (decide (j = i)) as [->|]; [exact Hi | apply Hn; lia]. }
    case_bool_decide as H1.
    + case_bool_decide as H2.
      * right. exists i. split; [reflexivity|]. split; [lia|].
        split; [by split|].
        intros j Hj; lia.
      * apply Hnot. intros [_ ?]. contradiction.
    + apply Hnot. intros [? _]. contradiction.
Qed.

(** When the sweep meets its first failing start at step 0, the round
    ends the loop: the candidate set is returned as it was. *)
Lemma round_accepts_failure_at_zero (rel : V) fuel mask idx (fleet : list D) :
  let sized := reliability_sizing_for_analy_indices rel mask idx fleet in
  (0 < length (critical_load rel))%nat →
  genuine_failure rel sized 0 →
  verification_sweep rel sized = 0%Z
  ∧ sizing_rounds (S fuel) rel mask idx fleet
    = Some (idx, sized, [CallReliabilitySizing idx]).
Proof.
  intros sized Hn Hf.
  assert (E : verification_sweep rel sized = 0%Z).
  { unfold verification_sweep.
    match goal with |- first_failure ?r ?l ?s ?n 0 = _ =>
      destruct (first_failure_least r l s n 0) as [[_ Hnone] | (k & Ek & Hk & _ & Hmin)]
    end.
    - exfalso. apply (Hnone 0%nat); [lia | exact Hf].
    - destruct k as [|k]; [exact Ek|].
      exfalso. apply (Hmin 0%nat); [lia | exact Hf]. }
  split; [exact E|].
  cbn [sizing_rounds]. fold sized. rewrite E.
  rewrite bool_decide_eq_false_2 by lia. reflexivity.
Qed.

(** A first failing start at a later step is appended and the loop
    goes on with the grown candidate set. *)
Lemma round_appends_later_failure (rel : V) fuel mask idx (fleet : list D) k :
  let sized := reliability_sizing_for_analy_indices rel mask idx fleet in
  verification_sweep rel sized = Z.of_nat (S k) →
  sizing_rounds (S fuel) rel mask idx fleet
  = '(a, l, c) ← sizing_rounds fuel rel mask (idx ++ [S k]) sized;
    Some (a, l, CallReliabilitySizing idx :: c).
Proof.
  intros sized E. cbn [sizing_rounds]. fold sized. rewrite E.
  rewrite bool_decide_eq_true_2 by lia.
  by rewrite Nat2Z.id.
Qed.

End Sweep.

(** C2: thirteen steps of critical load [1,9,9,0,0,2,...,2], outages of
    three steps.  The fleet sized for the ten candidates holds 18; an
    outage starting at step 0 needs 19, so the sized fleet survives only
    two steps there, fewer than the three required and fewer than the
    thirteen left: step 0 is a failing start.  The sweep finds it
    ([First_failure_ind = 0]), and the loop nevertheless stops after this
    one round with the candidate set unchanged, step 0 not in it. *)
Theorem failing_start_zero_is_accepted :
  let s := toy_scenario true false false false {["Reliability" := rel13]} levels5 in
  let mask := replicate (length levels5) false in
  let sized := toy_sizing rel13 top13 (der_list (the_poi s)) in
  initial_analysis_indices
    (max_load_demand_unserved load13 (replicate 13 0) (replicate 13 0)) = top13
  ∧ sized = [mkToyDer "Energy Storage System" (Qc_of_Z 18); mkToyDer "Generator" 0]
  ∧ genuine_failure rel13 sized 0
  ∧ verification_sweep rel13 sized = 0%Z
  ∧ sizing_rounds 5 rel13 mask top13 (der_list (the_poi s))
    = Some (top13, sized, [CallReliabilitySizing top13])
  ∧ 0%nat ∉ top13.
Proof.
  cbv zeta.
  assert (Hf : genuine_failure rel13
                 (toy_sizing rel13 top13
                    [mkToyDer "Energy Storage System" 0; mkToyDer "Generator" 0]) 0).
  { split; vm_compute; [reflexivity | lia]. }
  pose proof (round_accepts_failure_at_zero rel13 4
                (replicate (length levels5) false) top13
                [mkToyDer "Energy Storage System" 0; mkToyDer "Generator" 0]) as H.
  cbv zeta in H. destruct H as [Hsweep Hround]; [simpl; lia | exact Hf |].
  split_and!.
  - vm_compute. reflexivity.
  - apply (bool_decide_unpack _). vm_compute. exact I.
  - exact Hf.
  - exact Hsweep.
  - exact Hround.
  - apply (bool_decide_unpack _). vm_compute. exact I.
Qed.

(** The same load profile shifted by one step: the failing start is
    step 1, it is appended to the ten candidates, and the second round
    sizes the storage to the 19 the outage needs. *)
Example failing_start_one_is_appended :
  let s := toy_scenario true false false false {["Reliability" := rel14]} levels5 in
  (fun s' => (calls s', der_list (the_poi s')))
    <$> Reliability_based_sizing_module 5 s
  = Some ([CallReliabilitySizing [2; 3; 6; 7; 8; 9; 10; 11; 12; 13];
           CallReliabilitySizing [2; 3; 6; 7; 8; 9; 10; 11; 12; 13; 1];
           CallSetSize 0; CallSetSize 1; CallReliabilityMinSoe]%nat,
          [mkToyDer "Energy Storage System" (Qc_of_Z 19);
           mkToyDer "Generator" 0]).
Proof.
  cbv zeta. apply (bool_decide_unpack _). vm_compute. exact I.
Qed.

End ReliabilityLoopProofs.

Module OutageRankingProofs.
Import MicrogridScenario ScenarioSamples ReliabilityAux.

Lemma key_at_negated (l : list Qc) (i : nat) :
  key_at (Qcmult (- 1) <$> l) i = - key_at l i.
Proof.
  unfold key_at. rewrite list_lookup_fmap.
  destruct (l !! i) as [x|]; simpl; ring.
Qed.

Lemma Qcopp_le_cancel (a b : Qc) : - a ≤ - b → b ≤ a.
Proof.
  intros H. apply Qcopp_le_compat in H. by rewrite !Qcopp_involutive in H.
Qed.

Lemma StronglySorted_weaken {A} (R1 R2 : relation A) (l : list A) :
  (∀ x y, R1 x y → R2 x y) → StronglySorted R1 l → StronglySorted R2 l.
Proof.
  intros HR. induction 1 as [|x l Hl IH Hx]; constructor; [exact IH|].
  eapply Forall_impl; [exact Hx | intros y; apply HR].
Qed.

Example ranking_sample :
  ranking (Qc_of_Z <$> [3; 5; 3; 7]%Z) = [3; 1; 0; 2]%nat.
Proof. vm_compute. reflexivity. Qed.

Section Ranking.
Context {D V O R P F : Type}.
Context `{!DERClass D, !ValueStreamClass V D, !Collaborators D V O R P F}.

(** C5, amended: if [np.argsort] returns the positions of its
    argument in ascending key order, the initial candidates are
    [min 10 n] distinct time steps of the horizon, listed in
    non-increasing order of the unmet load rounded to five decimals,
    and no step left out has a larger rounded unmet load than a chosen
    one. *)
Theorem initial_candidates_ranked_by_rounded_load
    (critical_load generation total_pv_max : list Qc) :
  let unserved :=
    max_load_demand_unserved critical_load generation total_pv_max in
  let chosen := initial_analysis_indices unserved in
  sorts (Qcmult (- 1) <$> unserved) (argsort (Qcmult (- 1) <$> unserved)) →
  NoDup chosen
  ∧ length chosen = (10 `min` length unserved)%nat
  ∧ (∀ i, i ∈ chosen → (i < length unserved)%nat)
  ∧ StronglySorted (fun i j => key_at unserved j ≤ key_at unserved i) chosen
  ∧ (∀ i j, i ∈ chosen → (j < length unserved)%nat → j ∉ chosen →
            key_at unserved j ≤ key_at unserved i).
Proof.
  intros unserved chosen [Hperm Hsorted].
  subst chosen. unfold initial_analysis_indices, top_n_outages.
  set (keys := Qcmult (- 1) <$> unserved) in *.
  set (indices := argsort keys) in *.
  assert (Hlen : length keys = length unserved)
    by (subst keys; apply length_fmap).
  rewrite Hlen in Hperm.
  assert (Hnd : NoDup indices) by (rewrite Hperm; apply NoDup_seq).
  assert (Hdesc : StronglySorted
                    (fun i j => key_at unserved j ≤ key_at unserved i) indices).
  { eapply StronglySorted_weaken; [|exact Hsorted].
    intros x y Hxy. subst keys. cbv beta in Hxy.
    rewrite !key_at_negated in Hxy.
    by apply Qcopp_le_cancel. }
  rewrite <- (take_drop 10 indices) in Hdesc.
  split_and!.
  - eapply sublist_NoDup; [exact Hnd | apply sublist_take].
  - rewrite length_take, Hperm, List.length_seq. reflexivity.
  - intros i Hi. apply elem_of_take in Hi as (k & Hk & _).
    apply list_elem_of_lookup_2 in Hk. rewrite Hperm in Hk.
    apply elem_of_seq in Hk. lia.
  - eapply StronglySorted_app_1_l. exact Hdesc.
  - intros i j Hi Hj Hnj.
    assert (Hin : j ∈ indices).
    { rewrite Hperm. apply elem_of_seq. lia. }
    rewrite <- (take_drop 10 indices) in Hin.
    apply elem_of_app in Hin as [Hin | Hin]; [contradiction|].
    exact (StronglySorted_app_1_elem_of _ _ _ _ _ Hdesc Hi Hin).
Qed.

(** Whatever [np.argsort] does with equal keys, the two load profiles
    of the counterexample get the same candidates: after rounding they
    are the same argument. *)
Lemma rounding_hides_the_order :
  initial_analysis_indices
    (max_load_demand_unserved load11 (zeros 11) (zeros 11))
  = initial_analysis_indices
      (max_load_demand_unserved load11' (zeros 11) (zeros 11)).
Proof.
  assert (E : max_load_demand_unserved load11 (zeros 11) (zeros 11)
              = max_load_demand_unserved load11' (zeros 11) (zeros 11))
    by (apply (bool_decide_unpack _); vm_compute; exact I).
  by rewrite E.
Qed.

(** Hence no [argsort] at all makes the code follow the ranking by
    unmet load on both profiles. *)
Lemma no_argsort_ranks_by_unmet_load :
  initial_analysis_indices
    (max_load_demand_unserved load11 (zeros 11) (zeros 11))
  ≠ spec_initial_outages (unmet_load load11 (zeros 11) (zeros 11))
  ∨ initial_analysis_indices
      (max_load_demand_unserved load11' (zeros 11) (zeros 11))
    ≠ spec_initial_outages (unmet_load load11' (zeros 11) (zeros 11)).
Proof.
  assert (H1 : spec_initial_outages (unmet_load load11 (zeros 11) (zeros 11))
               = [0; 1; 2; 3; 4; 5; 6; 7; 8; 10]%nat) by (vm_compute; reflexivity).
  assert (H2 : spec_initial_outages (unmet_load load11' (zeros 11) (zeros 11))
               = [0; 1; 2; 3; 4; 5; 6; 7; 8; 9]%nat) by (vm_compute; reflexivity).
  rewrite <- rounding_hides_the_order, H1, H2.
  destruct (decide (initial_analysis_indices
                      (max_load_demand_unserved load11 (zeros 11) (zeros 11))
                    = [0; 1; 2; 3; 4; 5; 6; 7; 8; 10]%nat)) as [E | E].
  - right. rewrite E. discriminate.
  - left. exact E.
Qed.

End Ranking.

(** C5, as stated, fails: with an [argsort] that keeps equal keys in
    time order, steps 9 and 10 of [load11] have unmet loads 1.000001 and
    1.000002; ranked by unmet load the tenth candidate is step 10, while
    the code, which ranks the rounded values, takes step 9. *)
Lemma initial_candidates_differ_from_unmet_load_ranking :
  initial_analysis_indices
    (max_load_demand_unserved load11 (zeros 11) (zeros 11))
  = [0; 1; 2; 3; 4; 5; 6; 7; 8; 9]%nat
  ∧ spec_initial_outages (unmet_load load11 (zeros 11) (zeros 11))
    = [0; 1; 2; 3; 4; 5; 6; 7; 8; 10]%nat
  ∧ initial_analysis_indices
      (max_load_demand_unserved load11 (zeros 11) (zeros 11))
    ≠ spec_initial_outages (unmet_load load11 (zeros 11) (zeros 11)).
Proof.
  assert (H1 : initial_analysis_indices
                 (max_load_demand_unserved load11 (zeros 11) (zeros 11))
               = [0; 1; 2; 3; 4; 5; 6; 7; 8; 9]%nat) by (vm_compute; reflexivity).
  assert (H2 : spec_initial_outages (unmet_load load11 (zeros 11) (zeros 11))
               = [0; 1; 2; 3; 4; 5; 6; 7; 8; 10]%nat) by (vm_compute; reflexivity).
  split_and!; [exact H1 | exact H2 | rewrite H1, H2; discriminate].
Qed.

Lemma initial_candidates_ranked_by_rounded_load_witness :
  let unserved := max_load_demand_unserved load13 (zeros 13) (zeros 13) in
  sorts (Qcmult (- 1) <$> unserved) (argsort (Qcmult (- 1) <$> unserved))
  ∧ NoDup (initial_analysis_indices unserved)
  ∧ length (initial_analysis_indices unserved) = 10%nat.
Proof.
  cbv zeta.
  assert (Hs : sorts (Qcmult (- 1) <$> max_load_demand_unserved load13 (zeros 13) (zeros 13))
                 (argsort (Qcmult (- 1) <$> max_load_demand_unserved load13 (zeros 13) (zeros 13)))).
  { split; apply (bool_decide_unpack _); vm_compute; exact I. }
  pose proof (initial_candidates_ranked_by_rounded_load load13 (zeros 13) (zeros 13) Hs)
    as (Hnd & Hlen & _).
  split; [exact Hs|]. split; [exact Hnd | exact Hlen].
Defined.

End OutageRankingProofs.

Module RollingHorizonProofs.
Import MicrogridScenario ScenarioSamples RollingHorizonAux.

(** *** [unique] *)

Lemma unique_from_elem seen l x :
  x ∈ unique_from seen l ↔ x ∈ l ∧ x ∉ seen.
Proof.
  revert seen. induction l as [|y l IH]; intros seen; simpl.
  - split; [intros H; by apply elem_of_nil in H | intros [H _]; exact H].
  - case_bool_decide as Hy.
    + rewrite IH, elem_of_cons. split.
      * intros [Hl Hn]. split; [by right | exact Hn].
      * intros [[-> | Hl] Hn]; [contradiction | by split].
    + rewrite !elem_of_cons, IH, not_elem_of_cons. split.
      * intros [-> | (Hl & _ & Hn)]; split; auto.
      * intros [[-> | Hl] Hn]; [by left|].
        destruct (decide (x = y)) as [-> | Hne]; [by left | by right].
Qed.

Lemma unique_from_NoDup seen l : NoDup (unique_from seen l).
Proof.
  revert seen. induction l as [|y l IH]; intros seen; simpl.
  - constructor.
  - case_bool_decide as Hy; [apply IH|].
    constructor; [|apply IH].
    rewrite unique_from_elem, not_elem_of_cons. intros (_ & Hne & _).
    by apply Hne.
Qed.

Lemma unique_from_first_rows seen l :
  StronglySorted lt ((fun p => index_of p l) <$> unique_from seen l).
Proof.
  revert seen. induction l as [|y l IH]; intros seen; cbn [unique_from].
  - constructor.
  - assert (Hshift : ∀ seen',
              y ∈ seen' →
              (fun p => index_of p (y :: l)) <$> unique_from seen' l
              = S <$> ((fun p => index_of p l) <$> unique_from seen' l)).
    { intros seen' Hin. rewrite <- list_fmap_compose.
      apply list_fmap_ext. intros i p Hp.
      apply list_elem_of_lookup_2, unique_from_elem in Hp as [_ Hp].
      cbn [index_of compose]. rewrite bool_decide_eq_false_2; [reflexivity|].
      intros ->. contradiction. }
    assert (Hup : ∀ seen',
              StronglySorted lt
                (S <$> ((fun p => index_of p l) <$> unique_from seen' l))).
    { intros seen'. apply (StronglySorted_fmap S lt lt); [|apply IH].
      intros a b. apply Nat.succ_lt_mono. }
    case_bool_decide as Hy.
    + rewrite (Hshift seen Hy). apply Hup.
    + rewrite fmap_cons, (Hshift (y :: seen)) by (by left).
      constructor; [apply Hup|].
      cbn [index_of]. rewrite bool_decide_eq_true_2 by reflexivity.
      apply Forall_fmap, Forall_true. intros a. simpl. lia.
Qed.

(** *** Windows and time *)











Section Loop.
Context {D V O R P F : Type}.
Context `{!DERClass D, !ValueStreamClass V D, !Collaborators D V O R P F}.

Abbreviation scenario := (@MicrogridScenario.t D V O F).

Lemma is_ess_on_storage (f : D → D) (l : list D) :
  (fun der => if is_ess der then f der else der) <$> l = on_storage f <$> l.
Proof.
  apply list_fmap_ext. intros i der _. unfold is_ess, on_storage.
  by case_bool_decide; case_decide.
Qed.

Lemma ess_positions_storage (l : list D) :
  ess_positions l = storage_positions l.
Proof.
  unfold ess_positions, storage_positions. f_equal.
  apply list_filter_iff. intros [i der]. unfold is_ess. simpl.
  by rewrite bool_decide_eq_true.
Qed.

(** One pass through the loop body is a period as described. *)
Lemma optimize_period_block (sr : R) (alpha : Qc) (s : scenario) (p : Z) :
  ∃ b, period_block sr alpha s p b (optimize_period sr alpha s p).
Proof.
  unfold optimize_period, solve_window, period_block.
  cbn [apply_degradation called with_fleet the_poi the_service_agg
       set_der_list set_value_streams der_list value_streams
       post_facto_reliability_only period_mask predictive
       optimization_levels].
  rewrite is_ess_on_storage.
  destruct (run_optimization _ p _ _) as [[rows fleet2] services2] eqn:Erun.
  eexists. exists rows, fleet2, services2.
  refine (conj eq_refl _). cbv zeta.
  refine (conj eq_refl _).
  rewrite <- !ess_positions_storage, <- !is_ess_on_storage.
  cbn. rewrite <- !(assoc_L (++)). simpl.
  split_and!; reflexivity.
Qed.



End Loop.


Example unique_sample : unique [3; 3; 1; 3; 2; 1]%Z = [3; 1; 2]%Z.
Proof. reflexivity. Qed.

(** Two windows, a storage (DER 0) and a generator (DER 1), one
    service. *)
Example two_windows_calls :
  let s := toy_scenario false false false false {["Reliability" := rel13]} levels5 in
  calls (optimize_problem_loop s).2
  = [CallApplyPastDegredation 0 1;
     CallSetUpOptimization 1 1; CallRunOptimization 1;
     CallCalcDegradation 0 1 100 102;
     CallConcatObjectiveValues 1;
     CallDerSaveVariableResults 0 [100; 101; 102]%Z;
     CallDerSaveVariableResults 1 [100; 101; 102]%Z;
     CallVsSaveVariableResults {["Reliability"]} [100; 101; 102]%Z;
     CallApplyPastDegredation 0 2;
     CallSetUpOptimization 2 1; CallRunOptimization 2;
     CallCalcDegradation 0 2 103 104;
     CallConcatObjectiveValues 2;
     CallDerSaveVariableResults 0 [103; 104]%Z;
     CallDerSaveVariableResults 1 [103; 104]%Z;
     CallVsSaveVariableResults {["Reliability"]} [103; 104]%Z]
  ∧ objective_values (optimize_problem_loop s).2 = [1; 2]%Z.
Proof. cbv zeta. split; vm_compute; reflexivity. Qed.

End RollingHorizonProofs.

(** * Further properties of [ESSSizing] *)

Module ESSConstructorProofs.
Import Cvx CvxSemantics ESSSizing ESSSizingMethods Samples ConstructorAux.

Ltac run_init :=
  unfold __init__, init_energy, init_power, drop_charge_limit,
    drop_discharge_limit, mbind, M_bind, mret, M_ret, new_Variable,
    e_logger_error, add_nonneg, scaled, configured in *.

Ltac split_ratings s :=
  destruct s as [nm tg ene ch dis ll ul smin smax ie le ic lc id ld sc rt ccf];
  cbn [ene_max_rated ch_max_rated dis_max_rated incl_energy_limits
       limit_energy_max incl_charge_limits limit_charge_max
       incl_discharge_limits limit_discharge_max size_constraints name tag
       llsoc ulsoc] in *.

(** X1: when the energy, charge and discharge ratings given to the
    constructor are all non-zero, the constructor creates no variable, adds
    no constraint, drops no limit and logs nothing: it returns the
    instance of the parent constructors. *)
Theorem init_with_fixed_ratings_changes_nothing (s : t) (w : world) :
  truthy (ene_max_rated s) = true →
  truthy (ch_max_rated s) = true →
  truthy (dis_max_rated s) = true →
  __init__ s w = (s, w).
Proof.
  intros He Hc Hd. run_init. rewrite He. cbn. rewrite Hc, Hd. reflexivity.
Qed.

Lemma init_with_fixed_ratings_changes_nothing_witness :
  __init__ (fixed_ess 100 10 10) fresh_world = (fixed_ess 100 10 10, fresh_world).
Proof.
  apply init_with_fixed_ratings_changes_nothing; reflexivity.
Defined.

Ltac init_step :=
  match goal with
  | H : ?t = _ |- context [?t] => rewrite H
  | |- context [truthy ?x] => is_var x; destruct (truthy x) eqn:?
  | |- context [?f && bool_decide ?P] =>
      destruct (f && bool_decide P) eqn:?
  end.

Ltac init_by_cases s :=
  split_ratings s; run_init; cbn; repeat (init_step; cbn).

(** What the constructor does to the ratings, the size constraints, the
    identifier counter, the limits and the logs. *)
Lemma init_effect (s : t) (w : world) :
  let s' := (__init__ s w).1 in
  let w' := (__init__ s w).2 in
  let ke := if truthy (ene_max_rated s) then 0%nat else 1%nat in
  let ve := mkVariable (next_id w) "Energy_cap" true in
  let vp := mkVariable (next_id w + ke) (power_name s) true in
  let fixed_power := truthy (ch_max_rated s) && truthy (dis_max_rated s) in
  let drop_e := negb (truthy (ene_max_rated s))
                && configured (incl_energy_limits s) (limit_energy_max s) in
  let drop_c := negb (truthy (ch_max_rated s))
                && configured (incl_charge_limits s) (limit_charge_max s) in
  let drop_d := negb (truthy (dis_max_rated s))
                && configured (incl_discharge_limits s) (limit_discharge_max s) in
  (ene_max_rated s'
   = (if truthy (ene_max_rated s) then ene_max_rated s else Obj (Var ve))
   ∧ ch_max_rated s'
     = (if truthy (ch_max_rated s) then ch_max_rated s else Obj (Var vp))
   ∧ dis_max_rated s'
     = (if truthy (dis_max_rated s) then dis_max_rated s else Obj (Var vp)))
  ∧ (size_constraints s'
     = (size_constraints s
        ++ (if truthy (ene_max_rated s) then [] else [NonPos (Neg (Var ve))])
        ++ (if fixed_power then [] else [NonPos (Neg (Var vp))]))%list
     ∧ next_id w' = (next_id w + ke + (if fixed_power then 0 else 1))%nat)
  ∧ (limit_energy_max s' = (if drop_e then None else limit_energy_max s)
     ∧ limit_charge_max s' = (if drop_c then None else limit_charge_max s)
     ∧ limit_discharge_max s' = (if drop_d then None else limit_discharge_max s)
     ∧ length (error_log w')
       = (length (error_log w) + count_true [drop_e; drop_c; drop_d])%nat
     ∧ user_log w' = user_log w).
Proof.
  cbv zeta. unfold power_name.
  destruct (__init__ s w) as [s' w'] eqn:E. cbn [fst snd]. revert E.
  init_by_cases s; intros [= <- <-]; cbn;
    rewrite <- ?(assoc_L (++)), ?Nat.add_0_r, ?Nat.add_1_r, ?app_nil_r,
      ?length_app;
    cbn; split_and!; try reflexivity; lia.
Qed.

(** X2: the constructor appends to the size constraints exactly one
    non-negativity constraint [NonPos(-v)] for every variable it creates,
    in the order of creation; the variables are integer and carry the
    names of their branch, and their identifiers are handed out during the
    call, each later than the one before. *)
Theorem init_adds_one_constraint_per_variable (s : t) (w : world) :
  let s' := (__init__ s w).1 in
  let w' := (__init__ s w).2 in
  ∃ ids : list nat,
    length ids = length (created_names s)
    ∧ size_constraints s'
      = (size_constraints s
         ++ zip_with (fun id nm => NonPos (Neg (Var (mkVariable id nm true))))
                     ids (created_names s))%list
    ∧ StronglySorted lt ids
    ∧ Forall (fun id => (next_id w ≤ id < next_id w')%nat) ids.
Proof.
  cbv zeta.
  pose proof (init_effect s w) as H. cbv zeta in H.
  destruct H as (_ & [Hc Hn] & _). rewrite Hc, Hn.
  unfold created_names, power_name.
  destruct (truthy (ene_max_rated s)), (truthy (ch_max_rated s)),
    (truthy (dis_max_rated s)); cbn;
    first [ exists (@nil nat);
            split_and!; [reflexivity | reflexivity | constructor | constructor]
          | exists [(next_id w + 0)%nat];
            split_and!; [reflexivity | reflexivity | repeat constructor
                        | repeat constructor; lia]
          | exists [next_id w];
            split_and!; [reflexivity | reflexivity | repeat constructor
                        | repeat constructor; lia]
          | exists [next_id w; (next_id w + 1)%nat];
            split_and!; [reflexivity | reflexivity
                        | repeat constructor; lia
                        | repeat constructor; lia] ].
Qed.

(** X3: a time-series limit is set to [None] exactly when its own rating
    is sized and the limit was configured; every dropped limit adds one
    message to the error log, nothing else is logged, and the user log is
    untouched. *)
Theorem init_drops_exactly_the_clashing_limits (s : t) (w : world) :
  let s' := (__init__ s w).1 in
  let w' := (__init__ s w).2 in
  let drop_e := negb (truthy (ene_max_rated s))
                && configured (incl_energy_limits s) (limit_energy_max s) in
  let drop_c := negb (truthy (ch_max_rated s))
                && configured (incl_charge_limits s) (limit_charge_max s) in
  let drop_d := negb (truthy (dis_max_rated s))
                && configured (incl_discharge_limits s) (limit_discharge_max s) in
  limit_energy_max s' = (if drop_e then None else limit_energy_max s)
  ∧ limit_charge_max s' = (if drop_c then None else limit_charge_max s)
  ∧ limit_discharge_max s' = (if drop_d then None else limit_discharge_max s)
  ∧ length (error_log w')
    = (length (error_log w) + count_true [drop_e; drop_c; drop_d])%nat
  ∧ user_log w' = user_log w.
Proof.
  cbv zeta. pose proof (init_effect s w) as H. cbv zeta in H.
  exact (proj2 (proj2 H)).
Qed.

(** X4: when the charge and the discharge rating are both zero, one
    variable ['power_cap'] is created and both ratings are that same
    object; the pre-solve accessors of both directions then return it. *)
Theorem init_shares_one_power_variable (s : t) (w : world) (sol : solution) :
  truthy (ch_max_rated s) = false →
  truthy (dis_max_rated s) = false →
  let s' := (__init__ s w).1 in
  ∃ id, ch_max_rated s' = Obj (Var (mkVariable id "power_cap" true))
        ∧ dis_max_rated s' = ch_max_rated s'
        ∧ (charge_capacity false s' sol).1 = ch_max_rated s'
        ∧ (discharge_capacity false s' sol).1 = dis_max_rated s'
        ∧ (next_id w ≤ id < next_id (__init__ s w).2)%nat.
Proof.
  intros Hc Hd. cbv zeta.
  pose proof (init_effect s w) as H. cbv zeta in H.
  destruct H as ((_ & Ec & Ed) & (_ & En) & _).
  unfold power_name in *. rewrite Hc, Hd in *. cbn in En.
  eexists. split; [exact Ec|]. split; [by rewrite Ec, Ed|].
  split; [unfold charge_capacity; cbn; by rewrite Ec, Ed|].
  split; [reflexivity|].
  cbn. destruct (truthy (ene_max_rated s)); lia.
Qed.

Lemma init_shares_one_power_variable_witness :
  let s' := (__init__ (fixed_ess 100 0 0) fresh_world).1 in
  ch_max_rated s' = Obj (Var (mkVariable 0 "power_cap" true))
  ∧ dis_max_rated s' = ch_max_rated s'.
Proof.
  cbv zeta.
  destruct (init_shares_one_power_variable (fixed_ess 100 0 0) fresh_world
              (solved 1) eq_refl eq_refl) as (id & _ & Hd & _).
  split; [reflexivity | exact Hd].
Defined.

(** X5: when exactly one of the charge and discharge ratings is zero,
    that rating becomes a fresh variable named after its direction (its
    identifier is handed out during the call), the other rating stays the
    number it was, and the time-series limit of the other direction is
    left as it was. *)
Theorem init_sizes_one_direction (s : t) (w : world) :
  truthy (ch_max_rated s) = negb (truthy (dis_max_rated s)) →
  let s' := (__init__ s w).1 in
  ∃ id,
    (next_id w ≤ id < next_id (__init__ s w).2)%nat
    ∧ if truthy (ch_max_rated s)
      then ch_max_rated s' = ch_max_rated s
           ∧ dis_max_rated s'
             = Obj (Var (mkVariable id "discharge_power_cap" true))
           ∧ limit_charge_max s' = limit_charge_max s
      else dis_max_rated s' = dis_max_rated s
           ∧ ch_max_rated s'
             = Obj (Var (mkVariable id "charge_power_cap" true))
           ∧ limit_discharge_max s' = limit_discharge_max s.
Proof.
  intros Hx. cbv zeta.
  pose proof (init_effect s w) as H. cbv zeta in H.
  destruct H as ((_ & Ec & Ed) & (_ & En) & (_ & Lc & Ld & _)).
  unfold power_name in *.
  exists (next_id w + if truthy (ene_max_rated s) then 0 else 1)%nat.
  destruct (truthy (ch_max_rated s)), (truthy (dis_max_rated s));
    try discriminate Hx; cbn in *;
    (split; [destruct (truthy (ene_max_rated s)); lia | by split_and!]).
Qed.

Lemma init_sizes_one_direction_witness :
  let s' := (__init__ (fixed_ess 100 0 7) fresh_world).1 in
  dis_max_rated s' = Num (Qc_of_Z 7)
  ∧ ∃ id, ch_max_rated s' = Obj (Var (mkVariable id "charge_power_cap" true)).
Proof.
  cbv zeta.
  destruct (init_sizes_one_direction (fixed_ess 100 0 7) fresh_world eq_refl)
    as (id & _ & H).
  change (truthy (ch_max_rated (fixed_ess 100 0 7))) with false in H.
  destruct H as (Hd & Hc & _). split; [exact Hd | by exists id].
Defined.

(** X6: under any assignment that satisfies the constraints returned by
    [constraints(mask)] of the constructed instance, every rating the
    constructor sized resolves, with [solution=True], to a number that is
    not negative. *)
Theorem sized_ratings_are_nonnegative (s : t) (w : world) (sol : solution)
    (super_constraints : list constraint) :
  let s' := (__init__ s w).1 in
  Forall (holds sol) (constraints super_constraints s') →
  (if truthy (ene_max_rated s) then True
   else ∃ q, (energy_capacity true s' sol).1 = Num q ∧ 0 ≤ q)
  ∧ (if truthy (ch_max_rated s) then True
     else ∃ q, (charge_capacity true s' sol).1 = Num q ∧ 0 ≤ q)
  ∧ (if truthy (dis_max_rated s) then True
     else ∃ q, (discharge_capacity true s' sol).1 = Num q ∧ 0 ≤ q).
Proof.
  cbv zeta. intros Hall.
  pose proof (init_effect s w) as H. cbv zeta in H.
  destruct H as ((Ee & Ec & Ed) & (Esc & _) & _).
  unfold constraints in Hall. rewrite Esc in Hall.
  apply Forall_app in Hall as [_ Hall]. apply Forall_app in Hall as [_ Hall].
  apply Forall_app in Hall as [He Hp].
  assert (Hvar : ∀ v, holds sol (NonPos (Neg (Var v))) →
                 ∃ q, value_or_self sol (Obj (Var v)) = Num q ∧ 0 ≤ q).
  { intros v (q & Hq & Hle). cbn in Hq.
    destruct (sol (var_id v)) as [x|] eqn:Ex; [|discriminate].
    injection Hq as <-. exists x. unfold value_or_self. cbn. rewrite Ex.
    split; [reflexivity|].
    apply Qcopp_le_compat in Hle. by rewrite Qcopp_involutive in Hle. }
  unfold energy_capacity, charge_capacity, discharge_capacity. cbn.
  rewrite Ee, Ec, Ed.
  destruct (truthy (ene_max_rated s)), (truthy (ch_max_rated s)),
    (truthy (dis_max_rated s)); cbn in He, Hp;
    split_and!; try exact I;
    apply Hvar; first [exact (Forall_inv He) | exact (Forall_inv Hp)].
Qed.

Lemma sized_ratings_are_nonnegative_witness :
  let s' := (__init__ (fixed_ess 0 5 5) fresh_world).1 in
  Forall (holds (solved 40)) (constraints [] s')
  ∧ ∃ q, (energy_capacity true s' (solved 40)).1 = Num q ∧ 0 ≤ q.
Proof.
  cbv zeta.
  assert (H : Forall (holds (solved 40))
                (constraints [] (__init__ (fixed_ess 0 5 5) fresh_world).1)).
  { repeat constructor. exists (- Qc_of_Z 40). split; [reflexivity|].
    by vm_compute. }
  split; [exact H|].
  exact (proj1 (sized_ratings_are_nonnegative (fixed_ess 0 5 5) fresh_world
                  (solved 40) [] H)).
Defined.

End ESSConstructorProofs.

(** * Properties of the remaining [ESSSizing] methods *)

Module ESSMethodsProofs.
Import Cvx CvxSemantics ESSSizing ESSSizingMethods Samples.

Lemma world_eta (w : world) :
  mkWorld (next_id w) (error_log w) (user_log w) = w.
Proof. by destruct w. Qed.

(** X7: when the energy rating resolves to [e], the discharge rating to a
    non-zero [d] and the capital cost function has its three entries,
    [sizing_summary] returns the record with the resolved ratings and the
    duration [e / d]; it writes one message to the user log when that
    duration is above 24 and nothing otherwise, and it never touches the
    error log: the long duration is reported, not refused. *)
Theorem sizing_summary_reports_long_duration
    (self : t) (sol : solution) (w : world) (e d c0 c1 c2 : Qc)
    (more : list Qc) :
  value_or_self sol (ene_max_rated self) = Num e →
  value_or_self sol (dis_max_rated self) = Num d →
  d ≠ 0 →
  capital_cost_function self = c0 :: c1 :: c2 :: more →
  sizing_summary self sol w
  = (Ok (mkResults (name self) (Num e)
                   (value_or_self sol (ch_max_rated self)) (Num d)
                   (rte self) (llsoc self) (ulsoc self) (Quot (e / d))
                   c0 c1 c2),
     mkWorld (next_id w) (error_log w)
       (user_log w
        ++ (if bool_decide (Qc_of_Z 24 < e / d)
            then ["The duration of " +:+ name self
                  +:+ " is greater than 24 hours!"]
            else []))%list).
Proof.
  intros He Hd Hnz Hc.
  unfold sizing_summary, calculate_duration, energy_capacity, charge_capacity,
    discharge_capacity, mbind, M_bind, mret, M_ret. cbn.
  rewrite He, Hd, Hc. cbn.
  rewrite bool_decide_eq_false_2 by exact Hnz. cbn.
  case_bool_decide; cbn.
  - reflexivity.
  - by rewrite app_nil_r, world_eta.
Qed.

Lemma sizing_summary_reports_long_duration_witness :
  (sizing_summary (fixed_ess 100 2 2) (solved 0) fresh_world).2
  = mkWorld 0 [] ["The duration of es1 is greater than 24 hours!"].
Proof.
  rewrite (sizing_summary_reports_long_duration (fixed_ess 100 2 2) (solved 0)
             fresh_world (Qc_of_Z 100) (Qc_of_Z 2) (Qc_of_Z 0) (Qc_of_Z 100)
             (Qc_of_Z 200) [] eq_refl eq_refl ltac:(discriminate) eq_refl).
  reflexivity.
Defined.

(** X8: whenever [sizing_summary] fails, it has logged nothing: every
    failure (the division fault of the duration, a missing capital cost
    entry) comes before the only logging statement. *)
Theorem sizing_summary_failure_logs_nothing
    (self : t) (sol : solution) (w : world) (err : pyerror) :
  (sizing_summary self sol w).1 = Err err →
  (sizing_summary self sol w).2 = w.
Proof.
  unfold sizing_summary, calculate_duration, energy_capacity, charge_capacity,
    discharge_capacity, mbind, M_bind, mret, M_ret. cbn.
  destruct (div _ _) as [v | e]; cbn; [|done].
  destruct (item (capital_cost_function self) 0),
    (item (capital_cost_function self) 1),
    (item (capital_cost_function self) 2); cbn; try done.
  destruct (exceeds_24 v); cbn; done.
Qed.

Lemma sizing_summary_failure_logs_nothing_witness :
  (sizing_summary (set_dis_max_rated (Num 0) (fixed_ess 100 5 5)) (solved 0)
     fresh_world).2 = fresh_world.
Proof.
  apply (sizing_summary_failure_logs_nothing _ _ _ (Fault ZeroDivisionError)).
  reflexivity.
Defined.

(** X9: a discharge rating that the constructor sized and the solver set
    to zero does not make [sizing_summary] fail: when the energy rating
    resolves to a number and the capital cost function has its three
    entries, the record is returned, with the discharge rating 0 and a
    duration that is not a number; the error log is untouched. *)
Theorem sizing_summary_zero_discharge_gives_no_number
    (s : t) (w0 : world) (sol : solution) (w : world) (e c0 c1 c2 : Qc)
    (more : list Qc) :
  let self := (__init__ s w0).1 in
  value_or_self sol (ene_max_rated self) = Num e →
  value_or_self sol (dis_max_rated self) = Num 0 →
  capital_cost_function self = c0 :: c1 :: c2 :: more →
  ∃ r, (sizing_summary self sol w).1 = Ok r
       ∧ Discharge_Rating_kW r = Num 0
       ∧ (∀ q, Duration_hours r ≠ Quot q)
       ∧ error_log (sizing_summary self sol w).2 = error_log w.
Proof.
  cbv zeta. intros He Hd Hc.
  pose proof (ESSSizingProofs.init_discharge_truthy s w0) as Ht.
  pose proof (ESSSizingProofs.zero_value_is_array sol _ Ht Hd) as Ha.
  destruct (ESSSizingProofs.div_array_by_zero e) as (x & Hx & Hnum).
  unfold sizing_summary, energy_capacity, charge_capacity,
    discharge_capacity, mbind, M_bind, mret, M_ret.
  cbn -[calculate_duration value_or_self].
  rewrite (ESSSizingProofs.calculate_duration_resolved _ sol w e 0 He Hd).
  rewrite Ha, orb_true_r, Hx, Hc, He, Hd. cbn.
  destruct (exceeds_24 x); cbn; eexists; split_and!; try reflexivity; done.
Qed.

Lemma sizing_summary_zero_discharge_gives_no_number_witness :
  let sized := (__init__ (fixed_ess 100 5 0) fresh_world).1 in
  ∃ r, (sizing_summary sized (fun _ => Some 0) fresh_world).1 = Ok r
       ∧ Duration_hours r = Inf false.
Proof.
  cbv zeta.
  destruct (sizing_summary_zero_discharge_gives_no_number (fixed_ess 100 5 0)
              fresh_world (fun _ => Some 0) fresh_world (Qc_of_Z 100)
              (Qc_of_Z 0) (Qc_of_Z 100) (Qc_of_Z 200) []
              eq_refl eq_refl eq_refl) as (r & Hr & _).
  exists r. split; [exact Hr|].
  cbv in Hr. by injection Hr as <-.
Defined.

(** The attributes after [update_for_evaluation], one by one. *)
Lemma update_for_evaluation_fields
    (input_dict : gmap string Qc) (a : evaluation_attrs) :
  update_for_evaluation input_dict a
  = mkEval (default (fixedOM_perKW a) (input_dict !! "fixedOM"))
           (default (variable_om a)
                    ((fun v => v * Qc_of_Z 100) <$> input_dict !! "OMexpenses"))
           (incl_startup a)
           (if incl_startup a
            then default (p_start_ch a) (input_dict !! "p_start_ch")
            else p_start_ch a)
           (if incl_startup a
            then default (p_start_dis a) (input_dict !! "p_start_dis")
            else p_start_dis a).
Proof.
  unfold update_for_evaluation.
  generalize (input_dict !! "fixedOM") (input_dict !! "OMexpenses")
    (input_dict !! "p_start_ch") (input_dict !! "p_start_dis").
  intros [?|] [?|] [?|] [?|]; destruct a as [f v [] c d]; reflexivity.
Qed.

(** X10: [update_for_evaluation] is idempotent: applying the same input
    dictionary a second time changes nothing; in particular the factor 100
    on ['OMexpenses'] is applied to the input, not compounded. *)
Theorem update_for_evaluation_idempotent
    (input_dict : gmap string Qc) (a : evaluation_attrs) :
  update_for_evaluation input_dict (update_for_evaluation input_dict a)
  = update_for_evaluation input_dict a.
Proof.
  rewrite (update_for_evaluation_fields input_dict (update_for_evaluation _ _)).
  rewrite !update_for_evaluation_fields. cbn.
  generalize (input_dict !! "fixedOM") (input_dict !! "OMexpenses")
    (input_dict !! "p_start_ch") (input_dict !! "p_start_dis").
  intros [?|] [?|] [?|] [?|]; destruct (incl_startup a); reflexivity.
Qed.

(** X11: an instance without start-up costs keeps its start-up prices
    whatever the input dictionary holds, the start-up flag itself is never
    changed, and an empty dictionary changes nothing at all. *)
Theorem update_for_evaluation_startup_gate
    (input_dict : gmap string Qc) (a : evaluation_attrs) :
  incl_startup a = false →
  p_start_ch (update_for_evaluation input_dict a) = p_start_ch a
  ∧ p_start_dis (update_for_evaluation input_dict a) = p_start_dis a
  ∧ incl_startup (update_for_evaluation input_dict a) = false
  ∧ update_for_evaluation ∅ a = a.
Proof.
  intros Hs. rewrite !update_for_evaluation_fields, !lookup_empty, Hs. cbn.
  split_and!; try reflexivity. destruct a; cbn in *; by subst.
Qed.

Lemma update_for_evaluation_startup_gate_witness :
  let a := mkEval 1 1 false (Qc_of_Z 3) (Qc_of_Z 4) in
  p_start_ch (update_for_evaluation {["p_start_ch" := Qc_of_Z 9]} a)
  = Qc_of_Z 3.
Proof.
  cbv zeta.
  exact (proj1 (update_for_evaluation_startup_gate
                  {["p_start_ch" := Qc_of_Z 9]}
                  (mkEval 1 1 false (Qc_of_Z 3) (Qc_of_Z 4)) eq_refl)).
Defined.

End ESSMethodsProofs.

(** * Properties of the remaining [DieselSizing] methods *)

Module DieselMethodsProofs.
Import Cvx CvxSemantics DieselSizing DieselSizingMethods Samples.

Lemma holds_lower (sol : solution) (v : variable) (lo : Qc) :
  holds sol (NonPos (Plus (Const lo) (Neg (Var v))))
  ↔ ∃ k, sol (var_id v) = Some k ∧ lo ≤ k.
Proof.
  cbn. destruct (sol (var_id v)) as [k|]; cbn.
  - split.
    + intros (q & [= <-] & Hq). exists k. split; [done|].
      apply Qcle_minus_iff. apply Qcopp_le_compat in Hq.
      replace (k + - lo) with (- (lo + - k)) by ring.
      by replace (Q2Qc 0) with (- 0) by ring.
    + intros (k' & [= <-] & Hk). eexists. split; [done|].
      apply Qcle_minus_iff in Hk.
      apply Qcopp_le_compat in Hk.
      replace (- (k + - lo)) with (lo + - k) in Hk by ring.
      by replace (- 0) with (Q2Qc 0) in Hk by ring.
  - split; [by intros (q & ? & _) | by intros (k & ? & _)].
Qed.

Lemma holds_upper (sol : solution) (v : variable) (hi : Qc) :
  holds sol (NonPos (Plus (Var v) (Neg (Const hi))))
  ↔ ∃ k, sol (var_id v) = Some k ∧ k ≤ hi.
Proof.
  cbn. destruct (sol (var_id v)) as [k|]; cbn.
  - split.
    + intros (q & [= <-] & Hq). exists k. split; [done|].
      apply Qcle_minus_iff. apply Qcopp_le_compat in Hq.
      replace (hi + - k) with (- (k + - hi)) by ring.
      by replace (Q2Qc 0) with (- 0) by ring.
    + intros (k' & [= <-] & Hk). eexists. split; [done|].
      apply Qcle_minus_iff in Hk.
      apply Qcopp_le_compat in Hk.
      replace (- (hi + - k)) with (k + - hi) in Hk by ring.
      by replace (- 0) with (Q2Qc 0) in Hk by ring.
  - split; [by intros (q & ? & _) | by intros (k & ? & _)].
Qed.

Lemma holds_output (sol : solution) (g v : variable) (p : Qc) :
  holds sol (NonPos (Plus (Var g) (Neg (Scale p (Var v)))))
  ↔ ∃ x k, sol (var_id g) = Some x ∧ sol (var_id v) = Some k ∧ x ≤ p * k.
Proof.
  cbn. destruct (sol (var_id g)) as [x|], (sol (var_id v)) as [k|]; cbn.
  - split.
    + intros (q & [= <-] & Hq). exists x, k. split_and!; [done..|].
      apply Qcle_minus_iff. apply Qcopp_le_compat in Hq.
      replace (p * k + - x) with (- (x + - (p * k))) by ring.
      by replace (Q2Qc 0) with (- 0) by ring.
    + intros (x' & k' & [= <-] & [= <-] & Hk). eexists. split; [done|].
      apply Qcle_minus_iff in Hk.
      apply Qcopp_le_compat in Hk.
      replace (- (p * k + - x)) with (x + - (p * k)) in Hk by ring.
      by replace (- 0) with (Q2Qc 0) in Hk by ring.
  - split; [by intros (q & ? & _) | by intros (? & ? & _ & ? & _)].
  - split; [by intros (q & ? & _) | by intros (? & ? & ? & _)].
  - split; [by intros (q & ? & _) | by intros (? & ? & ? & _)].
Qed.

(** X12: for a generator built by the constructor, when the window has
    its ['ice_gen'] variables, [build_master_constraints] returns the
    parent's constraints followed by three more, and an assignment
    satisfies the result exactly when it satisfies the parent's
    constraints, gives the unit count a value between [n_min] and [n_max],
    and keeps the generation of every time step at or below the unit count
    times the rated power; with [n_max < n_min] no assignment does. *)
Theorem unit_count_constraints_mean_bounds
    (base : diesel) (lo hi : Qc) (w : world)
    (super_constraints : list problem_constraint)
    (variables : gmap string (list variable)) (ice_gen : list variable)
    (sol : solution) :
  variables !! "ice_gen" = Some ice_gen →
  let self := (__init__ base lo hi w).1 in
  ∃ added,
    build_master_constraints super_constraints variables self
    = Ok (super_constraints ++ added)%list
    ∧ length added = 3%nat
    ∧ (Forall (satisfies sol) (super_constraints ++ added)%list
       ↔ Forall (satisfies sol) super_constraints
         ∧ ∃ k, sol (next_id w) = Some k ∧ lo ≤ k ∧ k ≤ hi
                ∧ Forall (fun g => ∃ x, sol (var_id g) = Some x
                                        ∧ x ≤ diesel_p_max base * k) ice_gen)
    ∧ (hi < lo → ¬ Forall (satisfies sol) (super_constraints ++ added)%list).
Proof.
  intros Hv. cbv zeta.
  unfold build_master_constraints. rewrite Hv. cbn.
  set (v := mkVariable (next_id w) "generators" true).
  eexists. split; [reflexivity|]. split; [reflexivity|].
  assert (Hiff :
    Forall (satisfies sol)
      (super_constraints
       ++ [Scalar (NonPos (Plus (Const lo) (Neg (Var v))))]
       ++ [Scalar (NonPos (Plus (Var v) (Neg (Const hi))))]
       ++ [NonPosVec ((fun g => Plus (Var g) (Neg (Scale (diesel_p_max base) (Var v))))
                        <$> ice_gen)])%list
    ↔ Forall (satisfies sol) super_constraints
      ∧ ∃ k, sol (next_id w) = Some k ∧ lo ≤ k ∧ k ≤ hi
             ∧ Forall (fun g => ∃ x, sol (var_id g) = Some x
                                     ∧ x ≤ diesel_p_max base * k) ice_gen).
  { rewrite !Forall_app, !Forall_singleton. cbn [satisfies].
    rewrite holds_lower, holds_upper, Forall_fmap.
    split.
    - intros (Hs & (k & Hk & Hlo) & (k' & Hk' & Hhi) & Hg).
      split; [exact Hs|]. exists k.
      assert (k' = k) as -> by congruence.
      split_and!; [exact Hk | exact Hlo | exact Hhi |].
      eapply Forall_impl; [exact Hg|]. intros g Hgg.
      apply (holds_output sol g v) in Hgg as (x & k2 & Hx & Hk2 & Hle).
      assert (k2 = k) as -> by (cbn in Hk2, Hk; congruence).
      by exists x.
    - intros (Hs & k & Hk & Hlo & Hhi & Hg).
      split_and!; [exact Hs | by exists k | by exists k |].
      eapply Forall_impl; [exact Hg|]. intros g (x & Hx & Hle).
      apply (holds_output sol g v). by exists x, k. }
  split; [exact Hiff|].
  intros Hlt Hall. apply Hiff in Hall as (_ & k & _ & Hlo & Hhi & _).
  apply (Qclt_not_le _ _ Hlt). by etrans.
Qed.

Lemma unit_count_constraints_mean_bounds_witness :
  let self := (__init__ ice 1 (Qc_of_Z 5) fresh_world).1 in
  let g := mkVariable 7 "ice_gen" false in
  ∃ added,
    build_master_constraints [] {["ice_gen" := [g]]} self = Ok added
    ∧ length added = 3%nat.
Proof.
  cbv zeta.
  assert (Hv : ({["ice_gen" := [mkVariable 7 "ice_gen" false]]}
                  : gmap string (list variable)) !! "ice_gen"
               = Some [mkVariable 7 "ice_gen" false])
    by (vm_compute; reflexivity).
  destruct (unit_count_constraints_mean_bounds ice 1 (Qc_of_Z 5) fresh_world []
              _ _ (solved 2) Hv) as (added & Hb & Hl & _).
  exists added. split; [exact Hb | exact Hl].
Defined.

(** X13: for a generator built by the constructor, [sizing_summary]
    divides the rated power by the resolved unit count.  Before a solve
    the unit count is [None] and the division is a [TypeError].  With the
    unit count solved to [k], the report is returned: its first row is
    [p_max / k] when [k] is not zero and is not a number when [k = 0] (a
    value the bounds allow when [n_min] is not positive), followed by the
    fixed cost, the cost per kW and [k]. *)
Theorem diesel_sizing_summary_divides_by_unit_count
    (base : diesel) (lo hi : Qc) (w : world) (sol : solution) :
  let self := (__init__ base lo hi w).1 in
  match sol (next_id w) with
  | None => sizing_summary self sol = Raise TypeError
  | Some k =>
      ∃ per_unit,
        sizing_summary self sol
        = Return [ ("Power Capacity (kW)", Ratio per_unit);
                   ("Capital Cost ($)", Value (Num (diesel_capital_cost base)));
                   ("Capital Cost ($/kW)", Value (Num (diesel_ccost_kw base)));
                   ("Quantity", Value (Num k)) ]
        ∧ (k ≠ 0 → per_unit = Quot (diesel_p_max base / k))
        ∧ (k = 0 → ∀ q, per_unit ≠ Quot q)
  end.
Proof.
  cbv zeta.
  unfold sizing_summary, value_or_self, value, __init__, mbind, M_bind, mret,
    M_ret, new_Variable.
  cbn. destruct (sol (next_id w)) as [k|]; cbn; [|reflexivity].
  case_bool_decide as Hk.
  - eexists. split_and!; [reflexivity | done |].
    intros _ q. by case_bool_decide.
  - eexists. split_and!; [reflexivity | done | done].
Qed.

End DieselMethodsProofs.

(** * Properties of [MicrogridResult] *)

Module MicrogridResultProofs.
Import MicrogridResult.

(** *** Splitting a file name into components *)










Section Result.
Context {DF : Type}.
Variable creatable : list string → bool.


(** [create_drill_down_dfs] entry by entry: the service aggregator's
    report, else the POI's when the optimization engine ran, else what the
    dictionary held. *)
Lemma drill_down_reports_accumulate
    (poi_dfs service_agg_dfs : gmap string DF) (r : @t DF) (k : string) :
  let d' := drill_down_dict (create_drill_down_dfs poi_dfs service_agg_dfs r) in
  d' !! k
  = match service_agg_dfs !! k with
    | Some df => Some df
    | None =>
        if opt_engine r
        then match poi_dfs !! k with
             | Some df => Some df
             | None => drill_down_dict r !! k
             end
        else drill_down_dict r !! k
    end.
Proof.
  cbv zeta. unfold create_drill_down_dfs, update.
  destruct (opt_engine r); cbn; rewrite !lookup_union;
    destruct (service_agg_dfs !! k), (poi_dfs !! k), (drill_down_dict r !! k);
    reflexivity.
Qed.


End Result.

End MicrogridResultProofs.

(** * Further properties of [optimize_problem_loop] *)

Module DispatchLoopProofs.
Import MicrogridScenario ScenarioSamples RollingHorizonAux ScenarioAux.

Lemma filter_fmap_none {A B} (P : B → Prop) `{!∀ x, Decision (P x)}
    (f : A → B) (l : list A) :
  (∀ x, ¬ P (f x)) → filter P (f <$> l) = [].
Proof.
  intros Hf. induction l as [|x l IH]; [reflexivity|].
  rewrite fmap_cons, filter_cons_False by apply Hf. exact IH.
Qed.

Section Loop.
Context {D V O R P F : Type}.
Context `{!DERClass D, !ValueStreamClass V D, !Collaborators D V O R P F}.

Abbreviation scenario := (@MicrogridScenario.t D V O F).

Lemma same_configuration_refl (s : scenario) : same_configuration s s.
Proof. by repeat split. Qed.

Lemma same_configuration_trans (s1 s2 s3 : scenario) :
  same_configuration s1 s2 → same_configuration s2 s3 →
  same_configuration s1 s3.
Proof.
  intros (?&?&?&?&?&?&?&?) (?&?&?&?&?&?&?&?). repeat split; congruence.
Qed.

(** One pass through the loop body: configuration kept, calls and
    objective values only appended to. *)
Lemma optimize_period_frame (sr : R) (alpha : Qc) (s : scenario) (p : Z) :
  let s' := optimize_period sr alpha s p in
  same_configuration s s'
  ∧ (∃ more, calls s' = calls s ++ more)%list
  ∧ (∃ rows, objective_values s' = objective_values s ++ rows)%list
  ∧ logs s' = logs s.
Proof.
  cbv zeta. unfold optimize_period, solve_window.
  destruct (run_optimization _ p _ _) as [[rows fleet2] services2].
  cbn. split_and!; [by repeat split | | by eexists | reflexivity].
  rewrite <- !(assoc_L (++)). by eexists.
Qed.

Lemma optimization_periods_frame (sr : R) (alpha : Qc) (ps : list Z)
    (s : scenario) :
  let s' := foldl (optimize_period sr alpha) s ps in
  same_configuration s s'
  ∧ (∃ more, calls s' = calls s ++ more)%list
  ∧ (∃ rows, objective_values s' = objective_values s ++ rows)%list
  ∧ logs s' = logs s.
Proof.
  cbv zeta. revert s. induction ps as [|p ps IH]; intros s; cbn.
  - split_and!; [apply same_configuration_refl | exists [] | exists [] | done];
      by rewrite app_nil_r.
  - destruct (optimize_period_frame sr alpha s p) as (Hc & [m Hm] & [r Hr] & Hl).
    destruct (IH (optimize_period sr alpha s p))
      as (Hc' & [m' Hm'] & [r' Hr'] & Hl').
    split_and!.
    + eapply same_configuration_trans; eassumption.
    + exists (m ++ m')%list. by rewrite Hm', Hm, (assoc_L (++)).
    + exists (r ++ r')%list. by rewrite Hr', Hr, (assoc_L (++)).
    + congruence.
Qed.

(** The solver calls of one period. *)
Lemma optimize_period_solver_calls (sr : R) (alpha : Qc) (s : scenario)
    (p : Z) :
  filter (fun c => is_solver_call c = true)
         (calls (optimize_period sr alpha s p))
  = (filter (fun c => is_solver_call c = true) (calls s)
     ++ [CallSetUpOptimization p alpha; CallRunOptimization p])%list.
Proof.
  destruct (RollingHorizonProofs.optimize_period_block sr alpha s p)
    as (b & rows & fleet2 & services2 & _ & Hb & Hcalls & _).
  cbv zeta in Hb, Hcalls. rewrite Hcalls, Hb, !filter_app.
  rewrite !filter_fmap_none by (intros x; cbn; discriminate).
  cbn. by rewrite app_nil_r.
Qed.

Lemma optimization_periods_solver_calls (sr : R) (alpha : Qc) (ps : list Z)
    (s : scenario) :
  filter (fun c => is_solver_call c = true)
         (calls (foldl (optimize_period sr alpha) s ps))
  = (filter (fun c => is_solver_call c = true) (calls s)
     ++ (ps ≫= fun p => [CallSetUpOptimization p alpha;
                          CallRunOptimization p]))%list.
Proof.
  revert s. induction ps as [|p ps IH]; intros s; cbn.
  - by rewrite app_nil_r.
  - rewrite IH, optimize_period_solver_calls. by rewrite <- (assoc_L (++)).
Qed.

(** X15: [optimize_problem_loop] returns [False] exactly when sizing is
    requested together with a wholesale-only portfolio, a post-facto-only
    analysis or the binary formulation clash; in every other case it
    returns [True]. *)
Theorem optimize_problem_loop_flag (s : scenario) :
  (optimize_problem_loop s).1
  = negb (is_sizing_optimization (the_poi s)
          && (is_whole_sale_market (the_service_agg s)
              || post_facto_reliability_only (the_service_agg s)
              || is_dcp_error (the_poi s) (incl_binary s))).
Proof.
  unfold optimize_problem_loop, optimize_windows.
  destruct (is_sizing_optimization (the_poi s)),
    (is_whole_sale_market (the_service_agg s)),
    (post_facto_reliability_only (the_service_agg s)),
    (is_dcp_error (the_poi s) (incl_binary s)),
    (is_deferral_only (the_service_agg s)); reflexivity.
Qed.

(** X16: with a deferral-only or post-facto-only portfolio no window is
    set up or solved: the call history, the fleet, the services and the
    objective values are as before, and only one log line is written (to
    the user log when the function returns [True], to the error log when
    it returns [False]). *)
Theorem no_dispatch_for_deferral_or_post_facto (s : scenario) :
  is_deferral_only (the_service_agg s) = true
  ∨ post_facto_reliability_only (the_service_agg s) = true →
  let r := optimize_problem_loop s in
  calls r.2 = calls s
  ∧ the_poi r.2 = the_poi s
  ∧ the_service_agg r.2 = the_service_agg s
  ∧ objective_values r.2 = objective_values s
  ∧ (length (user_log (logs r.2)) + length (error_log (logs r.2))
     = S (length (user_log (logs s)) + length (error_log (logs s))))%nat
  ∧ (if r.1 then error_log (logs r.2) = error_log (logs s)
     else user_log (logs r.2) = user_log (logs s)).
Proof.
  intros Hskip. cbv zeta. unfold optimize_problem_loop, optimize_windows.
  destruct (is_sizing_optimization (the_poi s)),
    (is_whole_sale_market (the_service_agg s)),
    (post_facto_reliability_only (the_service_agg s)),
    (is_dcp_error (the_poi s) (incl_binary s)),
    (is_deferral_only (the_service_agg s));
    try (destruct Hskip; discriminate);
    cbn; rewrite ?length_app; cbn; split_and!; try reflexivity; lia.
Qed.

(** X17: when the loop runs, the optimization is set up and run exactly
    once for every distinct window, in the order of the windows, each
    set-up with the same annuity scalar: the value of
    [CostBenefitAnalysis.annuity_scalar] in sizing mode and 1 otherwise. *)
Theorem one_solve_per_window (s : scenario) :
  (optimize_problem_loop s).1 = true →
  is_deferral_only (the_service_agg s) = false →
  post_facto_reliability_only (the_service_agg s) = false →
  let alpha :=
    if is_sizing_optimization (the_poi s)
    then annuity_scalar (finance_inputs s) else 1 in
  filter (fun c => is_solver_call c = true) (calls (optimize_problem_loop s).2)
  = (filter (fun c => is_solver_call c = true) (calls s)
     ++ (unique (predictive s) ≫= fun p =>
           [CallSetUpOptimization p alpha; CallRunOptimization p]))%list.
Proof.
  intros Hflag Hd Hp. cbv zeta. revert Hflag.
  unfold optimize_problem_loop, optimize_windows. rewrite Hd, Hp.
  destruct (is_sizing_optimization (the_poi s)),
    (is_whole_sale_market (the_service_agg s)),
    (is_dcp_error (the_poi s) (incl_binary s));
    cbn; try discriminate; intros _;
    unfold optimization_loop; by rewrite optimization_periods_solver_calls.
Qed.

(** X18: [optimize_problem_loop] never changes the configuration of the
    scenario (the windows of the time series, the binary flag, the finance
    inputs, the flags of the POI and of the service aggregator); the call
    history and the objective values it leaves are the earlier ones with
    something appended. *)
Theorem optimize_problem_loop_keeps_configuration (s : scenario) :
  let s' := (optimize_problem_loop s).2 in
  same_configuration s s'
  ∧ (∃ more, calls s' = calls s ++ more)%list
  ∧ (∃ rows, objective_values s' = objective_values s ++ rows)%list.
Proof.
  cbv zeta.
  assert (Hlog : ∀ f, same_configuration s (logged f s)
                      ∧ (∃ more, calls (logged f s) = calls s ++ more)%list
                      ∧ (∃ rows, objective_values (logged f s)
                                 = objective_values s ++ rows)%list).
  { intros f. split_and!; [by repeat split | exists [] | exists []];
      cbn; by rewrite app_nil_r. }
  assert (Hwin : ∀ alpha,
            same_configuration s (optimize_windows alpha s).2
            ∧ (∃ more, calls (optimize_windows alpha s).2 = calls s ++ more)%list
            ∧ (∃ rows, objective_values (optimize_windows alpha s).2
                       = objective_values s ++ rows)%list).
  { intros alpha. unfold optimize_windows.
    destruct (_ || _); [apply Hlog|].
    cbn [snd]. unfold optimization_loop.
    match goal with |- context [foldl _ ?s0 ?ps] =>
      destruct (optimization_periods_frame
                  (check_system_requirements (der_list (the_poi s))
                     (value_streams (the_service_agg s))) alpha ps s0)
        as (Hc & Hm & Hr & _)
    end.
    split_and!; [|exact Hm | exact Hr].
    eapply same_configuration_trans; [|exact Hc]. by repeat split. }
  unfold optimize_problem_loop.
  destruct (is_sizing_optimization (the_poi s)); [|apply Hwin].
  destruct (is_whole_sale_market (the_service_agg s)); [apply Hlog|].
  destruct (post_facto_reliability_only (the_service_agg s)); [apply Hlog|].
  destruct (is_dcp_error (the_poi s) (incl_binary s)); [apply Hlog | apply Hwin].
Qed.

End Loop.

Lemma no_dispatch_for_deferral_or_post_facto_witness :
  let s := toy_scenario false false true false {["Reliability" := rel13]} levels5 in
  calls (optimize_problem_loop s).2 = [].
Proof.
  cbv zeta.
  exact (proj1 (no_dispatch_for_deferral_or_post_facto
                  (toy_scenario false false true false
                     {["Reliability" := rel13]} levels5)
                  (or_intror eq_refl))).
Defined.

Lemma one_solve_per_window_witness :
  let s := toy_scenario true false false false {["Reliability" := rel13]} levels5 in
  filter (fun c => is_solver_call c = true) (calls (optimize_problem_loop s).2)
  = [CallSetUpOptimization 1 (Qc_of_Z 12); CallRunOptimization 1;
     CallSetUpOptimization 2 (Qc_of_Z 12); CallRunOptimization 2].
Proof.
  cbv zeta.
  rewrite (one_solve_per_window
             (toy_scenario true false false false
                {["Reliability" := rel13]} levels5) eq_refl eq_refl eq_refl).
  reflexivity.
Defined.

End DispatchLoopProofs.

(** * The windows of the time series *)

Module WindowProofs.
Import MicrogridScenario ScenarioSamples.

Lemma concat_filter_skip (l : list (Z * Z)) (r : Z * Z) (ps : list Z) :
  r.2 ∉ ps →
  concat ((fun p => filter (fun x => x.2 = p) (r :: l)) <$> ps)
  = concat ((fun p => filter (fun x => x.2 = p) l) <$> ps).
Proof.
  induction ps as [|q ps IH]; intros Hn; [reflexivity|].
  apply not_elem_of_cons in Hn as [Hq Hn].
  rewrite !fmap_cons. cbn [concat].
  rewrite filter_cons_False by exact Hq. by rewrite IH.
Qed.

Lemma concat_filter_cons (l : list (Z * Z)) (r : Z * Z) (ps : list Z) :
  NoDup ps → r.2 ∈ ps →
  concat ((fun p => filter (fun x => x.2 = p) (r :: l)) <$> ps)
  ≡ₚ r :: concat ((fun p => filter (fun x => x.2 = p) l) <$> ps).
Proof.
  induction ps as [|q ps IH]; intros Hnd Hin.
  - by apply elem_of_nil in Hin.
  - apply NoDup_cons in Hnd as [Hq Hnd]. rewrite !fmap_cons. cbn [concat].
    destruct (decide (r.2 = q)) as [E | E].
    + rewrite filter_cons_True by exact E.
      rewrite concat_filter_skip by (by rewrite E). reflexivity.
    + rewrite filter_cons_False by exact E.
      apply elem_of_cons in Hin as [? | Hin]; [contradiction|].
      rewrite (IH Hnd Hin). by rewrite Permutation_middle.
Qed.

Lemma concat_filter_partition (l : list (Z * Z)) (ps : list Z) :
  NoDup ps → (∀ r, r ∈ l → r.2 ∈ ps) →
  concat ((fun p => filter (fun x => x.2 = p) l) <$> ps) ≡ₚ l.
Proof.
  intros Hnd. induction l as [|r l IH]; intros Hin.
  - clear. induction ps as [|q ps IHp]; [reflexivity|].
    rewrite fmap_cons. cbn [concat]. by rewrite filter_nil.
  - rewrite concat_filter_cons; [|exact Hnd | apply Hin; by left].
    constructor. apply IH. intros x Hx. apply Hin. by right.
Qed.

Lemma concat_fmap_fst (ls : list (list (Z * Z))) :
  concat ((fun l : list (Z * Z) => l.*1) <$> ls) = (concat ls).*1.
Proof.
  induction ls as [|l ls IH]; [reflexivity|].
  rewrite fmap_cons. cbn [concat]. by rewrite IH, fmap_app.
Qed.

Section Windows.
Context {D V O F : Type}.

Abbreviation scenario := (@MicrogridScenario.t D V O F).

(** X19: every window the loop visits has rows: its [sub_index] has a
    first and a last label, so [sub_index[0]] and [sub_index[-1]] exist,
    and every label in it is a row of the time series that carries this
    window. *)
Theorem visited_window_has_rows (s : scenario) (p : Z) :
  p ∈ unique (predictive s) →
  is_Some (head (sub_index_of s p))
  ∧ is_Some (last (sub_index_of s p))
  ∧ ∀ i, i ∈ sub_index_of s p → (i, p) ∈ optimization_levels s.
Proof.
  intros Hp. apply RollingHorizonProofs.unique_from_elem in Hp as [Hp _].
  unfold predictive in Hp. apply list_elem_of_fmap in Hp as ([i q] & -> & Hr).
  assert (Hin : i ∈ sub_index_of s q).
  { unfold sub_index_of. apply list_elem_of_fmap. exists (i, q).
    split; [reflexivity|]. by apply list_elem_of_filter. }
  cbn in *. split_and!.
  - destruct (sub_index_of s q); [by apply elem_of_nil in Hin | by eexists].
  - destruct (sub_index_of s q) as [|x l] using rev_ind;
      [by apply elem_of_nil in Hin | rewrite last_snoc; by eexists].
  - intros j Hj. unfold sub_index_of in Hj.
    apply list_elem_of_fmap in Hj as ([j' q'] & -> & Hj).
    apply list_elem_of_filter in Hj as [Hq Hj]. cbn in Hq. by subst q'.
Qed.

(** X20: the windows partition the time series: putting the [sub_index]
    of all visited windows together gives every row label of the time
    series exactly as often as it occurs there, so no time step is solved
    twice and none is left out. *)
Theorem windows_partition_the_time_series (s : scenario) :
  concat (sub_index_of s <$> unique (predictive s))
  ≡ₚ (optimization_levels s).*1.
Proof.
  change (sub_index_of s)
    with ((fun l : list (Z * Z) => l.*1)
          ∘ (fun p => filter (fun r : Z * Z => r.2 = p) (optimization_levels s))).
  rewrite list_fmap_compose.
  rewrite concat_fmap_fst. apply fmap_Permutation.
  apply concat_filter_partition.
  - apply RollingHorizonProofs.unique_from_NoDup.
  - intros r Hr. apply RollingHorizonProofs.unique_from_elem.
    split; [|by intros ?%elem_of_nil].
    unfold predictive. apply list_elem_of_fmap. by exists r.
Qed.

End Windows.

Lemma visited_window_has_rows_witness :
  let s := toy_scenario false false false false ∅ levels5 in
  head (sub_index_of s 2) = Some 103%Z ∧ last (sub_index_of s 2) = Some 104%Z.
Proof.
  cbv zeta.
  assert (H : (2%Z : Z) ∈ unique (predictive
                 (toy_scenario false false false false ∅ levels5)))
    by (apply (bool_decide_unpack _); vm_compute; exact I).
  destruct (visited_window_has_rows _ _ H) as ([x Hx] & [y Hy] & _).
  split; reflexivity.
Defined.

End WindowProofs.

(** * Further properties of the reliability sizing loop *)

Module SizingLoopProofs.
Import MicrogridScenario ScenarioSamples ReliabilityAux ScenarioAux.

Section Loop.
Context {D V O R P F : Type}.
Context `{!DERClass D, !ValueStreamClass V D, !Collaborators D V O R P F}.

Abbreviation scenario := (@MicrogridScenario.t D V O F).

(** X21: the verification sweep answers -1 exactly when no start index of
    the horizon is a failing start for the fleet; otherwise it answers the
    earliest failing start. *)
Theorem verification_sweep_finds_earliest_failure (rel : V) (fleet : list D) :
  let n := length (critical_load rel) in
  (verification_sweep rel fleet = (-1)%Z
   ∧ ∀ j, (j < n)%nat → ¬ genuine_failure rel fleet j)
  ∨ (∃ k, verification_sweep rel fleet = Z.of_nat k
          ∧ (k < n)%nat
          ∧ genuine_failure rel fleet k
          ∧ ∀ j, (j < k)%nat → ¬ genuine_failure rel fleet j).
Proof.
  cbv zeta. unfold verification_sweep, genuine_failure.
  match goal with |- context [first_failure ?r ?l ?s ?n 0] =>
    destruct (ReliabilityLoopProofs.first_failure_least r l s n 0)
      as [[E Hn] | (k & E & Hk & Hf & Hn)]
  end.
  - left. split; [exact E|]. intros j Hj. apply Hn. lia.
  - right. exists k. split; [exact E|]. split; [lia|]. split; [exact Hf|].
    intros j Hj. apply Hn. lia.
Qed.

(** X22: when the sizing loop ends, the candidate set it sized for is the
    initial one followed by the indices appended round by round, each of
    them a start index from 1 to the end of the horizon; there was one
    sizing call per round; and the fleet it returns is the last sizing
    result, for which either no start index fails, or start index 0
    fails. *)
Theorem sizing_rounds_outcome (fuel : nat) (rel : V) (mask : list bool)
    (idx : list nat) (fleet : list D) (a : list nat) (l : list D)
    (c : list call) :
  sizing_rounds fuel rel mask idx fleet = Some (a, l, c) →
  let n := length (critical_load rel) in
  ∃ appended,
    a = (idx ++ appended)%list
    ∧ Forall (fun k => (1 ≤ k < n)%nat) appended
    ∧ length c = S (length appended)
    ∧ head c = Some (CallReliabilitySizing idx)
    ∧ last c = Some (CallReliabilitySizing a)
    ∧ (∃ fleet', l = reliability_sizing_for_analy_indices rel mask a fleet')
    ∧ ((∀ j, (j < n)%nat → ¬ genuine_failure rel l j)
       ∨ genuine_failure rel l 0).
Proof.
  cbv zeta. revert idx fleet a l c.
  induction fuel as [|fuel IH]; intros idx fleet a l c Hrun; [discriminate|].
  cbn [sizing_rounds] in Hrun.
  set (sized := reliability_sizing_for_analy_indices rel mask idx fleet) in *.
  destruct (verification_sweep_finds_earliest_failure rel sized)
    as [[E Hnone] | (k & E & Hk & Hf & Hmin)]; rewrite E in Hrun.
  - rewrite bool_decide_eq_false_2 in Hrun by lia.
    injection Hrun as <- <- <-. exists [].
    rewrite app_nil_r. split_and!; try done; [by exists fleet | by left].
  - destruct k as [|k].
    + rewrite bool_decide_eq_false_2 in Hrun by lia.
      injection Hrun as <- <- <-. exists [].
      rewrite app_nil_r. split_and!; try done; [by exists fleet | by right].
    + rewrite bool_decide_eq_true_2 in Hrun by lia.
      rewrite Nat2Z.id in Hrun.
      destruct (sizing_rounds fuel rel mask (idx ++ [S k]) sized)
        as [[[a' l'] c']|] eqn:Hrec; [|discriminate].
      cbn in Hrun. injection Hrun as <- <- <-.
      destruct (IH _ _ _ _ _ Hrec)
        as (app' & -> & Hall & Hlen & Hhd & Hlast & Hfl & Hok).
      exists (S k :: app'). rewrite <- (assoc_L (++)) in *. cbn.
      split_and!; try done.
      * constructor; [lia | exact Hall].
      * by rewrite Hlen.
      * destruct c' as [|x c']; [discriminate Hlen | exact Hlast].
Qed.

(** X23: the sizing loop has no bound of its own: if sizing never yields
    a fleet whose verification sweep is free of failures from start index
    1 on, no number of rounds ends it. *)
Theorem sizing_rounds_never_end_without_progress (rel : V) (mask : list bool) :
  (∀ idx fleet,
     (0 < verification_sweep rel
            (reliability_sizing_for_analy_indices rel mask idx fleet))%Z) →
  ∀ fuel idx fleet, sizing_rounds fuel rel mask idx fleet = None.
Proof.
  intros Hstuck fuel. induction fuel as [|fuel IH]; intros idx fleet;
    [reflexivity|].
  cbn [sizing_rounds].
  rewrite bool_decide_eq_true_2 by (specialize (Hstuck idx fleet); lia).
  by rewrite IH.
Qed.

(** X24: whatever [Reliability_based_sizing_module] returns, it has kept
    the configuration of the scenario, the objective values, the logs and
    every value stream other than ['Reliability'], and it has only
    appended to the call history. *)
Theorem reliability_sizing_frame (fuel : nat) (s s' : scenario) :
  Reliability_based_sizing_module fuel s = Some s' →
  same_configuration s s'
  ∧ objective_values s' = objective_values s
  ∧ logs s' = logs s
  ∧ (∀ k, k ≠ "Reliability" →
          value_streams (the_service_agg s') !! k
          = value_streams (the_service_agg s) !! k)
  ∧ (∃ more, calls s' = calls s ++ more)%list.
Proof.
  unfold Reliability_based_sizing_module.
  assert (Hid : same_configuration s s
                ∧ objective_values s = objective_values s
                ∧ logs s = logs s
                ∧ (∀ k, k ≠ "Reliability" →
                        value_streams (the_service_agg s) !! k
                        = value_streams (the_service_agg s) !! k)
                ∧ (∃ more, calls s = calls s ++ more)%list).
  { split_and!; [by repeat split | done | done | done |].
    exists []. by rewrite app_nil_r. }
  destruct (value_streams (the_service_agg s) !! "Reliability") as [rel|];
    [|by intros [= <-]].
  destruct (is_sizing_optimization (the_poi s)); cbn; [|by intros [= <-]].
  destruct (sizing_rounds _ _ _ _ _) as [[[a l] c]|]; [|discriminate].
  cbn. destruct (reliability_min_soe_iterative _ _ _) as [rel' l'].
  intros [= <-]. cbn.
  split_and!; [by repeat split | done | done | | by eexists].
  intros k Hk. by rewrite lookup_insert_ne.
Qed.

End Loop.

Lemma sizing_rounds_outcome_witness :
  let s := toy_scenario true false false false {["Reliability" := rel14]} levels5 in
  ∃ a l c,
    sizing_rounds 5 rel14 (replicate 5 false)
      [2; 3; 6; 7; 8; 9; 10; 11; 12; 13]%nat (der_list (the_poi s))
    = Some (a, l, c)
    ∧ a = [2; 3; 6; 7; 8; 9; 10; 11; 12; 13; 1]%nat
    ∧ length c = 2%nat.
Proof.
  cbv zeta.
  destruct (sizing_rounds 5 rel14 (replicate 5 false)
              [2; 3; 6; 7; 8; 9; 10; 11; 12; 13]%nat
              (der_list (the_poi (toy_scenario true false false false
                                    {["Reliability" := rel14]} levels5))))
    as [[[a l] c]|] eqn:Hrun; [|vm_compute in Hrun; discriminate Hrun].
  destruct (sizing_rounds_outcome _ _ _ _ _ _ _ _ Hrun)
    as (appended & Ha & _ & Hlen & _).
  exists a, l, c. split; [reflexivity|].
  vm_compute in Hrun. injection Hrun as <- <- <-. split; reflexivity.
Defined.

Lemma sizing_rounds_never_end_without_progress_witness :
  sizing_rounds 100 stuck [] [] ([] : list toy_der) = None.
Proof.
  apply sizing_rounds_never_end_without_progress.
  intros idx fleet. vm_compute. reflexivity.
Defined.

Lemma reliability_sizing_frame_witness :
  let s := toy_scenario true false false false {["Reliability" := rel14]} levels5 in
  ∃ s', Reliability_based_sizing_module 5 s = Some s'
        ∧ objective_values s' = objective_values s
        ∧ logs s' = logs s.
Proof.
  cbv zeta.
  destruct (Reliability_based_sizing_module 5
              (toy_scenario true false false false
                 {["Reliability" := rel14]} levels5)) as [s'|] eqn:Hrun;
    [|vm_compute in Hrun; discriminate Hrun].
  destruct (reliability_sizing_frame _ _ _ Hrun) as (_ & Ho & Hl & _).
  exists s'. split; [reflexivity|]. split; [exact Ho | exact Hl].
Defined.

End SizingLoopProofs.
